(** * deep-object-reid: dataset scan and training monitors

    A shallow embedding of

    - [torchreid/integration/nous/monitors.py]
      ([PerformanceMonitor], [StopCallback], [DefaultStopCallback],
      [MetricsMonitor], [DefaultMetricsMonitor]) and
    - [torchreid/data/datasets/image/globalme.py] ([GlobalMe.process_dir]
      and the scans of [GlobalMe.__init__]),

    followed by the properties of these definitions.

    Conventions of the embedding.

    - Python [int] is [Z].  Python [float] is idealised as an exact
      rational ([Qc], canonical fractions, so that equality of floats is
      Leibniz equality): rounding of IEEE doubles is not modelled, and
      every statement below about a float is a statement in exact
      arithmetic.
    - A method is a computation in a state-and-exception monad over the
      object it is called on: it returns either a value or the Python
      exception it raised, together with the object as the call left it.
    - [time.time()] is the environment: every method that reads the clock
      takes the reading as an argument.
    - [glob.glob] is the environment as well: [process_dir] takes the list
      of paths that the glob returned. *)

From stdpp Require Import gmap strings list fin_maps numbers pretty.
From Stdlib Require Import QArith Qcanon Qround ZArith Lia Ascii.

Local Open Scope Z_scope.

(** * The embedding *)

(** ** Python values, exceptions and the method monad *)

Module Py.

Inductive error : Set :=
| ZeroDivisionError
| KeyError
| AttributeError
| ValueError.

#[global] Instance error_eq_dec : EqDecision error.
Proof. solve_decision. Defined.

(** The values that the modelled methods return, and their truth value
    ([bool(None)] is [False], [bool(n)] is [n != 0]). *)
Inductive value : Set :=
| VNone
| VBool (b : bool)
| VInt (z : Z).

#[global] Instance value_eq_dec : EqDecision value.
Proof. solve_decision. Defined.

Definition truth (v : value) : bool :=
  match v with
  | VNone => false
  | VBool b => b
  | VInt z => negb (z =? 0)
  end.

(** A computation on a state [S]: the outcome and the state it leaves.
    An exception keeps the mutations made before it was raised. *)
Definition M (S A : Type) : Type := S → (error + A) * S.

Definition ret {S A} (a : A) : M S A := λ s, (inr a, s).
Definition raise {S A} (e : error) : M S A := λ s, (inl e, s).
Definition bind {S A B} (m : M S A) (k : A → M S B) : M S B :=
  λ s, match m s with
       | (inr a, s') => k a s'
       | (inl e, s') => (inl e, s')
       end.
Definition get {S} : M S S := λ s, (inr s, s).
Definition modify {S} (f : S → S) : M S unit := λ s, (inr tt, f s).

(** [float]: exact rationals. *)
Definition float : Set := Qc.
Definition float_of_int (z : Z) : float := Qc_of_Z z.

(** [int(x)] on a float truncates towards zero. *)
Definition int_of_float (x : float) : Z :=
  Z.quot (Qnum (this x)) (Z.pos (Qden (this x))).

(** [a / b] (true division) and [a % b] on ints raise on a zero divisor.
    With a non-zero divisor Python's [%] takes the sign of the divisor,
    as [Z.modulo] does. *)
Definition truediv {S} (a b : float) : M S float :=
  if decide (b = 0%Qc) then raise ZeroDivisionError else ret (a / b)%Qc.
Definition imod {S} (a b : Z) : M S Z :=
  if decide (b = 0) then raise ZeroDivisionError else ret (a mod b).

End Py.

Notation "'do' x <- m ; k" := (Py.bind m (λ x, k))
  (at level 10, x name, m at level 100, k at level 200,
   format "'[v' 'do'  x  <-  m ; '/' k ']'").

(** ** monitors.py *)

Module Monitors.

Import Py.

(** *** PerformanceMonitor *)

Record PerformanceMonitor : Set := {
  total_epochs : Z;
  num_train_steps : Z;
  num_validation_steps : Z;
  train_steps_passed : Z;
  val_steps_passed : Z;
  train_epochs_passed : Z;
  granularity : float;
  start_epoch_time : float;
  start_batch_time : float;
  avg_epoch_time : float;
  avg_batch_time : float;
  avg_val_batch_time : float
}.

(** Attribute assignment [self.f = v], one function per assigned
    attribute. *)
Definition set_train_steps_passed (v : Z) (m : PerformanceMonitor) :=
  {| total_epochs := total_epochs m; num_train_steps := num_train_steps m;
     num_validation_steps := num_validation_steps m;
     train_steps_passed := v; val_steps_passed := val_steps_passed m;
     train_epochs_passed := train_epochs_passed m;
     granularity := granularity m; start_epoch_time := start_epoch_time m;
     start_batch_time := start_batch_time m;
     avg_epoch_time := avg_epoch_time m; avg_batch_time := avg_batch_time m;
     avg_val_batch_time := avg_val_batch_time m |}.
Definition set_val_steps_passed (v : Z) (m : PerformanceMonitor) :=
  {| total_epochs := total_epochs m; num_train_steps := num_train_steps m;
     num_validation_steps := num_validation_steps m;
     train_steps_passed := train_steps_passed m; val_steps_passed := v;
     train_epochs_passed := train_epochs_passed m;
     granularity := granularity m; start_epoch_time := start_epoch_time m;
     start_batch_time := start_batch_time m;
     avg_epoch_time := avg_epoch_time m; avg_batch_time := avg_batch_time m;
     avg_val_batch_time := avg_val_batch_time m |}.
Definition set_train_epochs_passed (v : Z) (m : PerformanceMonitor) :=
  {| total_epochs := total_epochs m; num_train_steps := num_train_steps m;
     num_validation_steps := num_validation_steps m;
     train_steps_passed := train_steps_passed m;
     val_steps_passed := val_steps_passed m; train_epochs_passed := v;
     granularity := granularity m; start_epoch_time := start_epoch_time m;
     start_batch_time := start_batch_time m;
     avg_epoch_time := avg_epoch_time m; avg_batch_time := avg_batch_time m;
     avg_val_batch_time := avg_val_batch_time m |}.
Definition set_start_epoch_time (v : float) (m : PerformanceMonitor) :=
  {| total_epochs := total_epochs m; num_train_steps := num_train_steps m;
     num_validation_steps := num_validation_steps m;
     train_steps_passed := train_steps_passed m;
     val_steps_passed := val_steps_passed m;
     train_epochs_passed := train_epochs_passed m;
     granularity := granularity m; start_epoch_time := v;
     start_batch_time := start_batch_time m;
     avg_epoch_time := avg_epoch_time m; avg_batch_time := avg_batch_time m;
     avg_val_batch_time := avg_val_batch_time m |}.
Definition set_start_batch_time (v : float) (m : PerformanceMonitor) :=
  {| total_epochs := total_epochs m; num_train_steps := num_train_steps m;
     num_validation_steps := num_validation_steps m;
     train_steps_passed := train_steps_passed m;
     val_steps_passed := val_steps_passed m;
     train_epochs_passed := train_epochs_passed m;
     granularity := granularity m; start_epoch_time := start_epoch_time m;
     start_batch_time := v;
     avg_epoch_time := avg_epoch_time m; avg_batch_time := avg_batch_time m;
     avg_val_batch_time := avg_val_batch_time m |}.
Definition set_avg_epoch_time (v : float) (m : PerformanceMonitor) :=
  {| total_epochs := total_epochs m; num_train_steps := num_train_steps m;
     num_validation_steps := num_validation_steps m;
     train_steps_passed := train_steps_passed m;
     val_steps_passed := val_steps_passed m;
     train_epochs_passed := train_epochs_passed m;
     granularity := granularity m; start_epoch_time := start_epoch_time m;
     start_batch_time := start_batch_time m;
     avg_epoch_time := v; avg_batch_time := avg_batch_time m;
     avg_val_batch_time := avg_val_batch_time m |}.
Definition set_avg_batch_time (v : float) (m : PerformanceMonitor) :=
  {| total_epochs := total_epochs m; num_train_steps := num_train_steps m;
     num_validation_steps := num_validation_steps m;
     train_steps_passed := train_steps_passed m;
     val_steps_passed := val_steps_passed m;
     train_epochs_passed := train_epochs_passed m;
     granularity := granularity m; start_epoch_time := start_epoch_time m;
     start_batch_time := start_batch_time m;
     avg_epoch_time := avg_epoch_time m; avg_batch_time := v;
     avg_val_batch_time := avg_val_batch_time m |}.
Definition set_avg_val_batch_time (v : float) (m : PerformanceMonitor) :=
  {| total_epochs := total_epochs m; num_train_steps := num_train_steps m;
     num_validation_steps := num_validation_steps m;
     train_steps_passed := train_steps_passed m;
     val_steps_passed := val_steps_passed m;
     train_epochs_passed := train_epochs_passed m;
     granularity := granularity m; start_epoch_time := start_epoch_time m;
     start_batch_time := start_batch_time m;
     avg_epoch_time := avg_epoch_time m; avg_batch_time := avg_batch_time m;
     avg_val_batch_time := v |}.

(** What a method of the monitor acts on: the object and the process's
    standard output ([get_val_progress] prints). *)
Record Proc : Set := { self : PerformanceMonitor; stdout : list string }.

Definition Method (A : Type) : Type := M Proc A.

Definition attr {A} (f : PerformanceMonitor → A) : Method A :=
  λ p, (inr (f (self p)), p).
Definition assign (upd : PerformanceMonitor → PerformanceMonitor)
  : Method unit :=
  modify (λ p, {| self := upd (self p); stdout := stdout p |}).
Definition print (line : string) : Method unit :=
  modify (λ p, {| self := self p; stdout := stdout p ++ [line] |}).

(** [init] assigns every attribute, so it is modelled as the constructor
    of the attribute record.  [1. / total_epochs] raises when
    [total_epochs] is [0]; the half-initialised object that Python leaves
    behind in that case is not modelled. *)
Definition init (total_epochs num_train_steps num_validation_steps : Z)
  : error + PerformanceMonitor :=
  if decide (total_epochs = 0) then inl ZeroDivisionError
  else inr {| total_epochs := total_epochs;
              num_train_steps := num_train_steps;
              num_validation_steps := num_validation_steps;
              train_steps_passed := 0;
              val_steps_passed := 0;
              train_epochs_passed := 0;
              granularity := (1 / float_of_int total_epochs)%Qc;
              start_epoch_time := 0%Qc;
              start_batch_time := 0%Qc;
              avg_epoch_time := 0%Qc;
              avg_batch_time := 0%Qc;
              avg_val_batch_time := 0%Qc |}.

Definition on_train_batch_begin (now : float) : Method unit :=
  assign (set_start_batch_time now).

Definition on_train_batch_end (now : float) : Method unit :=
  do n <- attr train_steps_passed;
  do _ <- assign (set_train_steps_passed (n + 1));
  do start <- attr start_batch_time;
  let batch_time := (now - start)%Qc in
  do avg <- attr avg_batch_time;
  do n <- attr train_steps_passed;
  do avg' <- truediv (avg * (float_of_int n - 1) + batch_time)%Qc
                  (float_of_int n);
  assign (set_avg_batch_time avg').

Definition on_val_batch_begin (now : float) : Method unit :=
  assign (set_start_batch_time now).

Definition on_val_batch_end (now : float) : Method unit :=
  do n <- attr val_steps_passed;
  do _ <- assign (set_val_steps_passed (n + 1));
  do start <- attr start_batch_time;
  let batch_time := (now - start)%Qc in
  do avg <- attr avg_val_batch_time;
  do n <- attr val_steps_passed;
  do avg' <- truediv (avg * (float_of_int n - 1) + batch_time)%Qc
                  (float_of_int n);
  assign (set_avg_val_batch_time avg').

Definition on_train_begin : Method unit :=
  do _ <- assign (set_train_steps_passed 0);
  assign (set_val_steps_passed 0).

Definition on_train_end : Method unit := ret tt.

Definition on_train_epoch_begin (now : float) : Method unit :=
  assign (set_start_epoch_time now).

Definition on_train_epoch_end (now : float) : Method unit :=
  do _ <- assign (set_val_steps_passed 0);
  do n <- attr train_epochs_passed;
  do _ <- assign (set_train_epochs_passed (n + 1));
  do start <- attr start_epoch_time;
  let epoch_time := (now - start)%Qc in
  do avg <- attr avg_epoch_time;
  do n <- attr train_epochs_passed;
  do avg' <- truediv (avg * (float_of_int n - 1) + epoch_time)%Qc
                  (float_of_int n);
  assign (set_avg_epoch_time avg').

Definition get_training_progress : Method Z :=
  do e <- attr train_epochs_passed;
  do t <- attr total_epochs;
  do q1 <- truediv (float_of_int e) (float_of_int t);
  let a := int_of_float (q1 * float_of_int 100)%Qc in
  do g <- attr granularity;
  do s <- attr train_steps_passed;
  do n <- attr num_train_steps;
  do r <- imod s n;
  do q2 <- truediv (g * float_of_int r)%Qc (float_of_int n);
  ret (a + int_of_float (q2 * float_of_int 100)%Qc).

Definition get_val_progress : Method Z :=
  do v <- attr val_steps_passed;
  do n <- attr num_validation_steps;
  do _ <- print (pretty v +:+ " " +:+ pretty n);
  do q <- truediv (float_of_int v) (float_of_int n);
  ret (int_of_float (q * float_of_int 100)%Qc).

Definition get_val_eta : Method Z :=
  do n <- attr num_validation_steps;
  do v <- attr val_steps_passed;
  let remaining_steps := n - v in
  do avg <- attr avg_batch_time;
  let remaining_batch_time := (float_of_int remaining_steps * avg)%Qc in
  ret (int_of_float remaining_batch_time).

Definition get_training_eta : Method Z :=
  do n <- attr num_train_steps;
  do s <- attr train_steps_passed;
  do r <- imod s n;
  let remaining_steps := n - r in
  do t <- attr total_epochs;
  do e <- attr train_epochs_passed;
  let remaining_epochs := t - e in
  do avg_batch <- attr avg_batch_time;
  let remaining_batch_time := (float_of_int remaining_steps * avg_batch)%Qc in
  do avg_epoch <- attr avg_epoch_time;
  let remaining_epoch_time := (float_of_int remaining_epochs * avg_epoch)%Qc in
  if decide (remaining_epoch_time = 0%Qc) then
    ret (int_of_float (remaining_batch_time * Q2Qc (3 # 2))%Qc)
  else
    do r' <- imod s n;
    do epoch_completion <- truediv (float_of_int r') (float_of_int n);
    ret (int_of_float (remaining_epoch_time - epoch_completion * avg_epoch)%Qc).

(** A client of the monitor: the calls of the interface
    [IPerformanceMonitor] after [init], each clock-reading call with the
    reading it gets, and a driver that performs a sequence of calls on one
    object and collects what they return ([None] for the methods without
    a [return]). *)
Inductive call : Set :=
| OnTrainBegin
| OnTrainEnd
| OnTrainEpochBegin (now : float)
| OnTrainEpochEnd (now : float)
| OnTrainBatchBegin (now : float)
| OnTrainBatchEnd (now : float)
| OnValBatchBegin (now : float)
| OnValBatchEnd (now : float)
| GetTrainingProgress
| GetValProgress
| GetValEta
| GetTrainingEta.

Definition is_getter (c : call) : bool :=
  match c with
  | GetTrainingProgress | GetValProgress | GetValEta | GetTrainingEta => true
  | _ => false
  end.

Definition returns_none (m : Method unit) : Method value :=
  do _ <- m; ret VNone.
Definition returns_int (m : Method Z) : Method value :=
  do x <- m; ret (VInt x).

Definition perform (c : call) : Method value :=
  match c with
  | OnTrainBegin => returns_none on_train_begin
  | OnTrainEnd => returns_none on_train_end
  | OnTrainEpochBegin now => returns_none (on_train_epoch_begin now)
  | OnTrainEpochEnd now => returns_none (on_train_epoch_end now)
  | OnTrainBatchBegin now => returns_none (on_train_batch_begin now)
  | OnTrainBatchEnd now => returns_none (on_train_batch_end now)
  | OnValBatchBegin now => returns_none (on_val_batch_begin now)
  | OnValBatchEnd now => returns_none (on_val_batch_end now)
  | GetTrainingProgress => returns_int get_training_progress
  | GetValProgress => returns_int get_val_progress
  | GetValEta => returns_int get_val_eta
  | GetTrainingEta => returns_int get_training_eta
  end.

Fixpoint perform_all (cs : list call) : Method (list value) :=
  match cs with
  | [] => ret []
  | c :: cs' =>
      do v <- perform c;
      do vs <- perform_all cs';
      ret (v :: vs)
  end.

(** A fresh process: the object [init] built, nothing printed yet. *)
Definition fresh (m : PerformanceMonitor) : Proc :=
  {| self := m; stdout := [] |}.

(** The monitor after [init(T, n, v)] and the calls [cs], when neither
    [init] nor a call raised. *)
Definition monitor_after (T n v : Z) (cs : list call)
  : option PerformanceMonitor :=
  match init T n v with
  | inl _ => None
  | inr m0 =>
      match perform_all cs (fresh m0) with
      | (inr _, p) => Some (self p)
      | (inl _, _) => None
      end
  end.

(** What the calls [cs] returned, in order, under the same conditions. *)
Definition returned_after (T n v : Z) (cs : list call)
  : option (list value) :=
  match init T n v with
  | inl _ => None
  | inr m0 =>
      match perform_all cs (fresh m0) with
      | (inr vs, _) => Some vs
      | (inl _, _) => None
      end
  end.

(** *** StopCallback *)

Record StopCallback : Set := { stop_flag : bool }.

Module StopCallback.
Definition __init__ : StopCallback := {| stop_flag := false |}.
Definition stop : M StopCallback value :=
  do _ <- modify (λ _, {| stop_flag := true |}); ret VNone.
Definition check_stop : M StopCallback value :=
  do s <- get; ret (VBool (stop_flag s)).
Definition reset : M StopCallback value :=
  do _ <- modify (λ _, {| stop_flag := false |}); ret VNone.

(** A client: any sequence of calls on one object. *)
Inductive latch_call : Set := DoStop | DoCheckStop | DoReset.

Definition perform_latch_call (c : latch_call) : M StopCallback value :=
  match c with
  | DoStop => stop
  | DoCheckStop => check_stop
  | DoReset => reset
  end.

Fixpoint perform_latch_calls (cs : list latch_call)
  : M StopCallback (list value) :=
  match cs with
  | [] => ret []
  | c :: cs' =>
      do v <- perform_latch_call c;
      do vs <- perform_latch_calls cs';
      ret (v :: vs)
  end.
End StopCallback.

(** *** DefaultStopCallback

    The class has no [__init__] and no attribute; each method body is
    [pass], so each call returns [None]. *)
Record DefaultStopCallback : Set := { }.

Module DefaultStopCallback.
Definition stop : M DefaultStopCallback value := ret VNone.
Definition check_stop : M DefaultStopCallback value := ret VNone.
Definition reset : M DefaultStopCallback value := ret VNone.

(** A client: any sequence of calls on one object. *)
Inductive stop_call : Set := Stop | CheckStop | Reset.

Definition perform_stop_call (c : stop_call) : M DefaultStopCallback value :=
  match c with
  | Stop => stop
  | CheckStop => check_stop
  | Reset => reset
  end.

Fixpoint perform_stop_calls (cs : list stop_call)
  : M DefaultStopCallback (list value) :=
  match cs with
  | [] => ret []
  | c :: cs' =>
      do v <- perform_stop_call c;
      do vs <- perform_stop_calls cs';
      ret (v :: vs)
  end.
End DefaultStopCallback.

(** *** DefaultMetricsMonitor *)

Record DefaultMetricsMonitor : Set := {
  metrics_dict : gmap string (list float)
}.

Module DefaultMetricsMonitor.
Definition __init__ : DefaultMetricsMonitor := {| metrics_dict := ∅ |}.

Definition add_scalar (capture : string) (val : float) (timestamp : Z)
  : M DefaultMetricsMonitor value :=
  do s <- get;
  match metrics_dict s !! capture with
  | Some l =>
      do _ <- modify (λ s, {| metrics_dict :=
                                <[capture := l ++ [val]]> (metrics_dict s) |});
      ret VNone
  | None =>
      do _ <- modify (λ s, {| metrics_dict :=
                                <[capture := [val]]> (metrics_dict s) |});
      ret VNone
  end.

Definition get_metric_values (capture : string)
  : M DefaultMetricsMonitor (list float) :=
  do s <- get;
  match metrics_dict s !! capture with
  | Some l => ret l
  | None => raise KeyError
  end.

Definition close : M DefaultMetricsMonitor value := ret VNone.

(** A client: a sequence of [add_scalar] calls on one monitor. *)
Fixpoint add_scalars (calls : list (string * float * Z))
  : M DefaultMetricsMonitor unit :=
  match calls with
  | [] => ret tt
  | (capture, val, timestamp) :: calls' =>
      do _ <- add_scalar capture val timestamp;
      add_scalars calls'
  end.

(** A client that also closes: any sequence of [add_scalar] and [close]
    calls on one monitor. *)
Inductive metric_call : Set :=
| AddScalar (capture : string) (val : float) (timestamp : Z)
| Close.

Definition perform_metric_call (c : metric_call)
  : M DefaultMetricsMonitor value :=
  match c with
  | AddScalar capture val timestamp => add_scalar capture val timestamp
  | Close => close
  end.

Fixpoint perform_metric_calls (cs : list metric_call)
  : M DefaultMetricsMonitor unit :=
  match cs with
  | [] => ret tt
  | c :: cs' =>
      do _ <- perform_metric_call c;
      perform_metric_calls cs'
  end.
End DefaultMetricsMonitor.

(** *** MetricsMonitor

    [SummaryWriter] is the environment.  The monitor is modelled together
    with the log of the calls it makes on writers: the constructor call
    [SummaryWriter(log_dir)], [add_scalar] and [close].  A writer is named
    by the number of writers constructed before it, and a writer object is
    true in a boolean test.  Exceptions of the writer (a directory that
    cannot be created, a full disk) are not modelled. *)
Inductive writer_call : Set :=
| WriterNew (w : nat) (log_dir : string)
| WriterAddScalar (w : nat) (capture : string) (val : float) (timestamp : Z)
| WriterClose (w : nat).

Record MetricsMonitor : Set := {
  log_dir : string;
  tb : option nat
}.

Record MetricsProc : Set := {
  monitor : MetricsMonitor;
  writer_calls : list writer_call
}.

Module MetricsMonitor.

Definition __init__ (log_dir : string) : MetricsMonitor :=
  {| log_dir := log_dir; tb := None |}.

Definition is_new (c : writer_call) : bool :=
  match c with
  | WriterNew _ _ => true
  | _ => false
  end.

(** [SummaryWriter(log_dir)]: a new writer. *)
Definition SummaryWriter (log_dir : string) : M MetricsProc nat :=
  do p <- get;
  let w := length (filter (λ c, is_new c = true) (writer_calls p)) in
  do _ <- modify (λ p, {| monitor := monitor p;
                          writer_calls :=
                            writer_calls p ++ [WriterNew w log_dir] |});
  ret w.

Definition call_writer (c : writer_call) : M MetricsProc unit :=
  modify (λ p, {| monitor := monitor p;
                  writer_calls := writer_calls p ++ [c] |}).

Definition set_tb (v : option nat) : M MetricsProc unit :=
  modify (λ p, {| monitor := {| log_dir := log_dir (monitor p); tb := v |};
                  writer_calls := writer_calls p |}).

Definition add_scalar (capture : string) (val : float) (timestamp : Z)
  : M MetricsProc value :=
  do p <- get;
  do _ <- match tb (monitor p) with
          | Some _ => ret tt
          | None =>
              do w <- SummaryWriter (log_dir (monitor p));
              set_tb (Some w)
          end;
  do p <- get;
  match tb (monitor p) with
  | Some w =>
      do _ <- call_writer (WriterAddScalar w capture val timestamp);
      ret VNone
  | None => raise AttributeError
  end.

Definition close : M MetricsProc value :=
  do p <- get;
  match tb (monitor p) with
  | Some w =>
      do _ <- call_writer (WriterClose w);
      do _ <- set_tb None;
      ret VNone
  | None => ret VNone
  end.

(** A client: any sequence of [add_scalar] and [close] calls on one
    monitor. *)
Inductive logger_call : Set :=
| LogScalar (capture : string) (val : float) (timestamp : Z)
| LogClose.

Definition perform_logger_call (c : logger_call) : M MetricsProc value :=
  match c with
  | LogScalar capture val timestamp => add_scalar capture val timestamp
  | LogClose => close
  end.

Fixpoint perform_logger_calls (cs : list logger_call)
  : M MetricsProc (list value) :=
  match cs with
  | [] => ret []
  | c :: cs' =>
      do v <- perform_logger_call c;
      do vs <- perform_logger_calls cs';
      ret (v :: vs)
  end.

(** A new monitor in a process that has made no writer yet. *)
Definition start (log_dir : string) : MetricsProc :=
  {| monitor := __init__ log_dir; writer_calls := [] |}.

End MetricsMonitor.

End Monitors.

(** ** globalme.py *)

Module GlobalMe.

Import Py.

(** *** The pattern [([-\d]+)_c(\d)]

    Paths are byte strings here; [\d] is an ASCII digit. *)

Definition is_digit (c : ascii) : bool :=
  let n := N_of_ascii c in ((48 <=? n) && (n <=? 57))%N.

(** The class [[-\d]]. *)
Definition in_class (c : ascii) : bool :=
  Ascii.eqb c "-" || is_digit c.

(** [_c(\d)] at the head of [s]. *)
Definition match_tail (s : string) : option ascii :=
  match s with
  | String "_" (String "c" (String d _)) =>
      if is_digit d then Some d else None
  | _ => None
  end.

(** The whole pattern at the head of [s]: the greedy [+] takes one more
    character of the class whenever the rest then still matches, and
    gives it back otherwise. *)
Fixpoint match_here (s : string) : option (string * ascii) :=
  match s with
  | String c r =>
      if in_class c then
        match match_here r with
        | Some (g, d) => Some (String c g, d)
        | None =>
            match match_tail r with
            | Some d => Some (String c EmptyString, d)
            | None => None
            end
        end
      else None
  | EmptyString => None
  end.

(** [pattern.search(s)]: the match at the leftmost position that has
    one, as its two groups; [None] when no position has. *)
Fixpoint search (s : string) : option (string * ascii) :=
  match match_here s with
  | Some m => Some m
  | None =>
      match s with
      | String _ r => search r
      | EmptyString => None
      end
  end.

(** *** [int] on a group

    A group holds only [-] and digits; on such a string [int] accepts
    one optional leading [-] followed by at least one digit. *)
Fixpoint digits_value (acc : Z) (s : string) : option Z :=
  match s with
  | EmptyString => Some acc
  | String c r =>
      if is_digit c
      then digits_value (10 * acc + (Z.of_N (N_of_ascii c) - 48)) r
      else None
  end.

Definition int_of_str (s : string) : error + Z :=
  let '(negative, ds) :=
    match s with
    | String c r => if Ascii.eqb c "-" then (true, r) else (false, s)
    | EmptyString => (false, s)
    end in
  match ds with
  | EmptyString => inl ValueError
  | _ =>
      match digits_value 0 ds with
      | Some n => inr (if negative then - n else n)
      | None => inl ValueError
      end
  end.

(** [map(int, pattern.search(img_path).groups())], unpacked into two
    names: [None.groups()] raises [AttributeError], a group that is not
    an integer literal raises [ValueError]. *)
Definition parse (img_path : string) : error + Z * Z :=
  match search img_path with
  | None => inl AttributeError
  | Some (g1, g2) =>
      match int_of_str g1 with
      | inl e => inl e
      | inr pid =>
          match int_of_str (String g2 EmptyString) with
          | inl e => inl e
          | inr camid => inr (pid, camid)
          end
      end
  end.

(** *** process_dir *)

Definition sample : Set := (string * Z * Z)%type.

Definition img_path_of (s : sample) : string := s.1.1.
Definition pid_of (s : sample) : Z := s.1.2.
Definition camid_of (s : sample) : Z := s.2.

(** [enumerate(l, start)]; [start] is 0 when left out. *)
Fixpoint enumerate_from {A} (start : Z) (l : list A) : list (Z * A) :=
  match l with
  | [] => []
  | x :: l' => (start, x) :: enumerate_from (start + 1) l'
  end.

Definition enumerate {A} (l : list A) : list (Z * A) := enumerate_from 0 l.

Section process_dir.

(** The order in which Python iterates over a set of ints is a detail
    of the hash table: any order that visits every element once. *)
Variable set_iter : gset Z → list Z.
Hypothesis set_iter_perm : ∀ s, set_iter s ≡ₚ elements s.

(** The first loop. *)
Fixpoint collect_pids (img_paths : list string) (pid_container : gset Z)
  : error + gset Z :=
  match img_paths with
  | [] => inr pid_container
  | img_path :: rest =>
      match parse img_path with
      | inl e => inl e
      | inr (pid, _) =>
          if decide (pid = -1) then collect_pids rest pid_container
          else collect_pids rest ({[pid]} ∪ pid_container)
      end
  end.

(** [{pid: label for label, pid in enumerate(pid_container)}]. *)
Definition make_pid2label (pid_container : gset Z) : gmap Z Z :=
  foldl (λ d '(label, pid), <[pid := label]> d) ∅
        (enumerate (set_iter pid_container)).

(** The second loop. *)
Fixpoint build_data (pid2label : gmap Z Z) (relabel : bool)
    (img_paths : list string) (data : list sample)
  : error + list sample :=
  match img_paths with
  | [] => inr data
  | img_path :: rest =>
      match parse img_path with
      | inl e => inl e
      | inr (pid, camid) =>
          if decide (pid = -1) then build_data pid2label relabel rest data
          else if relabel then
            match pid2label !! pid with
            | Some label =>
                build_data pid2label relabel rest
                           (data ++ [(img_path, label, camid)])
            | None => inl KeyError
            end
          else
            build_data pid2label relabel rest
                       (data ++ [(img_path, pid, camid)])
      end
  end.

Definition process_dir (img_paths : list string) (relabel : bool)
  : error + list sample :=
  match collect_pids img_paths ∅ with
  | inl e => inl e
  | inr pid_container =>
      build_data (make_pid2label pid_container) relabel img_paths []
  end.

(** [GlobalMe.__init__] after [check_before_run]: the three splits handed
    to the base class, from the glob results of the four folders. *)
Definition __init__ (train_paths query_paths gallery_paths
                     extra_gallery_paths : list string)
    (market1501_500k : bool)
  : error + list sample * list sample * list sample :=
  match process_dir train_paths true with
  | inl e => inl e
  | inr train =>
      match process_dir query_paths false with
      | inl e => inl e
      | inr query =>
          match process_dir gallery_paths false with
          | inl e => inl e
          | inr gallery =>
              if market1501_500k then
                match process_dir extra_gallery_paths false with
                | inl e => inl e
                | inr extra => inr (train, query, gallery ++ extra)
                end
              else inr (train, query, gallery)
          end
      end
  end.

End process_dir.

End GlobalMe.

(** * Vocabulary of the statements *)

Import Py Monitors.

(** ** PerformanceMonitor *)

(** The incremental average of the specification:
    [avg' = (avg * (n - 1) + new_sample) / n]. *)
Definition incremental_average (avg : float) (n : Z) (sample : float)
  : float :=
  ((avg * (float_of_int n - 1) + sample) / float_of_int n)%Qc.

(** [get_training_eta] after its attribute reads: the quantity it tests
    and the value of each branch. *)
Definition remaining_epoch_time (m : PerformanceMonitor) : float :=
  (float_of_int (total_epochs m - train_epochs_passed m)
   * avg_epoch_time m)%Qc.

Definition eta_from_batches (m : PerformanceMonitor) : Z :=
  int_of_float
    (float_of_int
       (num_train_steps m - train_steps_passed m mod num_train_steps m)
     * avg_batch_time m * Q2Qc (3 # 2))%Qc.

Definition eta_from_epochs (m : PerformanceMonitor) : Z :=
  int_of_float
    (remaining_epoch_time m
     - float_of_int (train_steps_passed m mod num_train_steps m)
       / float_of_int (num_train_steps m) * avg_epoch_time m)%Qc.

(** What [init(T, n, v)] establishes and every call keeps. *)
Record Inv (T n v : Z) (m : PerformanceMonitor) : Prop := {
  inv_total_epochs : total_epochs m = T;
  inv_num_train_steps : num_train_steps m = n;
  inv_num_validation_steps : num_validation_steps m = v;
  inv_granularity : granularity m = (1 / float_of_int T)%Qc;
  inv_train_steps_passed : 0 ≤ train_steps_passed m;
  inv_val_steps_passed : 0 ≤ val_steps_passed m;
  inv_train_epochs_passed : 0 ≤ train_epochs_passed m
}.

(** The monitor [m] in a process that has printed [out]. *)
Definition proc (m : PerformanceMonitor) (out : list string) : Proc :=
  {| self := m; stdout := out |}.







(** Runs a method of the monitor symbolically, up to the tests on zero
    divisors. *)
Ltac unfold_method :=
  unfold perform, returns_none, returns_int,
    on_train_begin, on_train_end, on_train_epoch_begin, on_train_epoch_end,
    on_train_batch_begin, on_train_batch_end, on_val_batch_begin,
    on_val_batch_end, get_training_progress, get_val_progress, get_val_eta,
    get_training_eta, truediv, imod, attr, assign, print,
    Py.bind, Py.ret, Py.raise, Py.get, Py.modify;
  cbn [self stdout total_epochs num_train_steps num_validation_steps
       train_steps_passed val_steps_passed train_epochs_passed granularity
       start_epoch_time start_batch_time avg_epoch_time avg_batch_time
       avg_val_batch_time set_train_steps_passed set_val_steps_passed
       set_train_epochs_passed set_start_epoch_time set_start_batch_time
       set_avg_epoch_time set_avg_batch_time set_avg_val_batch_time].

(** ** DefaultMetricsMonitor *)

(** The calls without their timestamps, and the values logged under one
    name. *)
Definition untimed (calls : list (string * float * Z))
  : list (string * float) :=
  map (λ c, (c.1.1, c.1.2)) calls.

Definition values_for (capture : string) (calls : list (string * float * Z))
  : list float :=
  map (λ c, c.1.2) (filter (λ c, c.1.1 = capture) calls).

(** ** GlobalMe *)

Import GlobalMe.

(** The sample that a path stands for before any relabelling: its parsed
    identity and camera, unless it does not parse or the identity is the
    sentinel. *)
Definition raw_sample (img_path : string) : option sample :=
  match parse img_path with
  | inr (pid, camid) =>
      if decide (pid = -1) then None else Some (img_path, pid, camid)
  | inl _ => None
  end.

Definition raw_samples (img_paths : list string) : list sample :=
  omap raw_sample img_paths.

Definition parses (img_path : string) : Prop := ∃ r, parse img_path = inr r.

(** A sample with its identity replaced by its label. *)
Definition relabelled (d : gmap Z Z) (s : sample) : sample :=
  (img_path_of s, default 0 (d !! pid_of s), camid_of s).

(** ** Further vocabulary: PerformanceMonitor *)

Definition is_train_begin (c : call) : bool :=
  match c with OnTrainBegin => true | _ => false end.

Definition is_epoch_end (c : call) : bool :=
  match c with OnTrainEpochEnd _ => true | _ => false end.

Definition is_train_batch_end (c : call) : bool :=
  match c with OnTrainBatchEnd _ => true | _ => false end.

Definition is_val_batch_end (c : call) : bool :=
  match c with OnValBatchEnd _ => true | _ => false end.

(** The calls made after the last call that satisfies [reset] (all of
    them when there is none). *)
Definition since_last (reset : call → bool) (cs : list call) : list call :=
  foldl (λ acc c, if reset c then [] else acc ++ [c]) [] cs.

Definition count (which : call → bool) (cs : list call) : Z :=
  Z.of_nat (length (filter (λ c, which c = true) cs)).



(** ** Further vocabulary: StopCallback and the metrics monitors *)

(** The flag after the calls [cs], started at [flag]. *)
Definition flag_after (cs : list StopCallback.latch_call) (flag : bool) : bool :=
  foldl (λ b c, match c with
                | StopCallback.DoStop => true
                | StopCallback.DoReset => false
                | StopCallback.DoCheckStop => b
                end) flag cs.

(** The scalars that a log of writer calls holds, and the scalars that a
    sequence of monitor calls was given. *)
Definition scalars_written (log : list writer_call)
  : list (string * float * Z) :=
  omap (λ c, match c with
             | WriterAddScalar _ capture val timestamp =>
                 Some (capture, val, timestamp)
             | _ => None
             end) log.

Definition scalars_given (cs : list MetricsMonitor.logger_call)
  : list (string * float * Z) :=
  omap (λ c, match c with
             | MetricsMonitor.LogScalar capture val timestamp =>
                 Some (capture, val, timestamp)
             | MetricsMonitor.LogClose => None
             end) cs.

(** The discipline of a log of writer calls: writers are constructed on
    [dir] and numbered in order, one at a time; scalars and [close] go to
    the writer that is open.  [replay] follows a log from the state
    (writers constructed so far, writer now open) and gives the state at
    its end, or [None] when a call breaks the discipline. *)
Definition replay_call (dir : string) (st : nat * option nat)
    (c : writer_call) : option (nat * option nat) :=
  match c, st with
  | WriterNew w d, (made, None) =>
      if decide (w = made ∧ d = dir) then Some (S made, Some w) else None
  | WriterAddScalar w _ _ _, (made, Some w') =>
      if decide (w = w') then Some st else None
  | WriterClose w, (made, Some w') =>
      if decide (w = w') then Some (made, None) else None
  | _, _ => None
  end.

Fixpoint replay (dir : string) (st : nat * option nat)
    (log : list writer_call) : option (nat * option nat) :=
  match log with
  | [] => Some st
  | c :: log' =>
      match replay_call dir st c with
      | Some st' => replay dir st' log'
      | None => None
      end
  end.

(** The state that [replay] reaches is the one the monitor holds. *)
Definition in_step (dir : string) (p : MetricsProc) : Prop :=
  log_dir (monitor p) = dir ∧
  replay dir (0%nat, None) (writer_calls p)
  = Some (length (filter (λ c, MetricsMonitor.is_new c = true)
                         (writer_calls p)),
          tb (monitor p)).

(** The values given under one name by a sequence of calls of the default
    monitor. *)
Definition values_given (capture : string)
    (cs : list DefaultMetricsMonitor.metric_call) : list float :=
  omap (λ c, match c with
             | DefaultMetricsMonitor.AddScalar capture' val _ =>
                 if decide (capture' = capture) then Some val else None
             | DefaultMetricsMonitor.Close => None
             end) cs.

(** ** Further vocabulary: GlobalMe *)

(** Every character of [s] is in the class [[-\d]]; [s] holds a [-]. *)
Fixpoint all_in_class (s : string) : bool :=
  match s with
  | EmptyString => true
  | String c r => in_class c && all_in_class r
  end.

Fixpoint has_dash (s : string) : bool :=
  match s with
  | EmptyString => false
  | String c r => Ascii.eqb c "-" || has_dash r
  end.

(** [s] holds a match of the pattern with groups [g] and [d], after [pre]
    and before [post]. *)
Definition occurrence (s pre g : string) (d : ascii) (post : string) : Prop :=
  s = pre +:+ g +:+ "_c" +:+ String d post ∧
  g ≠ "" ∧ all_in_class g = true ∧ is_digit d = true.

(** * Properties *)

(** ** Arithmetic of [float] and [int] *)

Section Arithmetic.

Lemma float_of_int_0 (z : Z) : float_of_int z = 0%Qc ↔ z = 0.
Proof.
  unfold float_of_int. rewrite <- Z2Qc_inj_0. apply Z2Qc_inj_iff.
Qed.







Lemma int_of_float_nonneg (x : float) : (0 ≤ x)%Qc → 0 ≤ int_of_float x.
Proof.
  intros Hx. unfold int_of_float.
  apply Z.quot_pos; [|lia].
  unfold Qcle, Qle in Hx. simpl in Hx. lia.
Qed.

End Arithmetic.

(** ** PerformanceMonitor: what each method computes *)

Section MethodEquations.

Variable p : Proc.
Local Abbreviation m := (self p).

Lemma on_train_batch_end_eq (now : float) :
  0 ≤ train_steps_passed m →
  on_train_batch_end now p =
    (inr tt,
     {| self :=
          set_avg_batch_time
            (incremental_average (avg_batch_time m) (train_steps_passed m + 1)
                         (now - start_batch_time m)%Qc)
            (set_train_steps_passed (train_steps_passed m + 1) m);
        stdout := stdout p |}).
Proof.
  intros Hn. unfold_method.
  destruct (decide _) as [H0|_]; [|reflexivity].
  apply float_of_int_0 in H0. lia.
Qed.

Lemma on_val_batch_end_eq (now : float) :
  0 ≤ val_steps_passed m →
  on_val_batch_end now p =
    (inr tt,
     {| self :=
          set_avg_val_batch_time
            (incremental_average (avg_val_batch_time m) (val_steps_passed m + 1)
                         (now - start_batch_time m)%Qc)
            (set_val_steps_passed (val_steps_passed m + 1) m);
        stdout := stdout p |}).
Proof.
  intros Hn. unfold_method.
  destruct (decide _) as [H0|_]; [|reflexivity].
  apply float_of_int_0 in H0. lia.
Qed.

Lemma on_train_epoch_end_eq (now : float) :
  0 ≤ train_epochs_passed m →
  on_train_epoch_end now p =
    (inr tt,
     {| self :=
          set_avg_epoch_time
            (incremental_average (avg_epoch_time m) (train_epochs_passed m + 1)
                         (now - start_epoch_time m)%Qc)
            (set_train_epochs_passed (train_epochs_passed m + 1)
               (set_val_steps_passed 0 m));
        stdout := stdout p |}).
Proof.
  intros Hn. unfold_method.
  destruct (decide _) as [H0|_]; [|reflexivity].
  apply float_of_int_0 in H0. lia.
Qed.

Lemma get_training_progress_eq :
  total_epochs m ≠ 0 → num_train_steps m ≠ 0 →
  get_training_progress p =
    (inr (int_of_float
            (float_of_int (train_epochs_passed m)
             / float_of_int (total_epochs m) * float_of_int 100)%Qc
          + int_of_float
              (granularity m
               * float_of_int (train_steps_passed m mod num_train_steps m)
               / float_of_int (num_train_steps m) * float_of_int 100)%Qc),
     p).
Proof.
  intros HT Hn. unfold_method.
  rewrite <- float_of_int_0 in HT.
  destruct (decide (float_of_int (total_epochs _) = _)); [done|].
  destruct (decide (num_train_steps _ = 0)); [done|].
  rewrite <- float_of_int_0 in Hn.
  destruct (decide (float_of_int (num_train_steps _) = _)); [done|].
  reflexivity.
Qed.

Lemma get_val_progress_eq :
  num_validation_steps m ≠ 0 →
  get_val_progress p =
    (inr (int_of_float
            (float_of_int (val_steps_passed m)
             / float_of_int (num_validation_steps m) * float_of_int 100)%Qc),
     {| self := m;
        stdout := stdout p ++ [pretty (val_steps_passed m) +:+ " "
                               +:+ pretty (num_validation_steps m)] |}).
Proof.
  intros Hn. unfold_method.
  rewrite <- float_of_int_0 in Hn.
  destruct (decide _); [done|]. reflexivity.
Qed.

Lemma get_val_eta_eq :
  get_val_eta p =
    (inr (int_of_float
            (float_of_int (num_validation_steps m - val_steps_passed m)
             * avg_batch_time m)%Qc),
     p).
Proof. reflexivity. Qed.

Lemma get_training_eta_eq :
  num_train_steps m ≠ 0 →
  get_training_eta p =
    (inr (if decide (remaining_epoch_time m = 0%Qc)
          then eta_from_batches m else eta_from_epochs m),
     p).
Proof.
  intros Hn. unfold_method.
  unfold remaining_epoch_time, eta_from_batches, eta_from_epochs.
  pose proof (proj1 (float_of_int_0 (num_train_steps (self p)))) as Hn'.
  repeat case_decide; solve [reflexivity | tauto].
Qed.

End MethodEquations.

(** ** PerformanceMonitor: what every reachable state satisfies *)

Section Reachability.

Variables T n v : Z.
Hypothesis T_pos : 1 ≤ T.
Hypothesis n_pos : 1 ≤ n.
Hypothesis v_pos : 1 ≤ v.

Lemma init_ok : ∃ m0, init T n v = inr m0 ∧ Inv T n v m0.
Proof.
  unfold init. destruct (decide (T = 0)); [lia|].
  eexists; split; [reflexivity|]. split; simpl; (reflexivity || lia).
Qed.

(** No call raises on a state that satisfies the invariant, and the
    invariant is kept. *)
Lemma perform_ok (c : call) (p : Proc) :
  Inv T n v (self p) →
  ∃ r p', perform c p = (inr r, p') ∧ Inv T n v (self p').
Proof.
  intros [HT Hn Hv Hg Hs Hvs He].
  destruct c; unfold perform, returns_none, returns_int, Py.bind.
  - eexists _, _; split; [reflexivity|]. split; simpl; (assumption || lia).
  - eexists _, _; split; [reflexivity|]. split; simpl; (assumption || lia).
  - eexists _, _; split; [reflexivity|]. split; simpl; (assumption || lia).
  - rewrite on_train_epoch_end_eq by done.
    eexists _, _; split; [reflexivity|]. split; simpl; (assumption || lia).
  - eexists _, _; split; [reflexivity|]. split; simpl; (assumption || lia).
  - rewrite on_train_batch_end_eq by done.
    eexists _, _; split; [reflexivity|]. split; simpl; (assumption || lia).
  - eexists _, _; split; [reflexivity|]. split; simpl; (assumption || lia).
  - rewrite on_val_batch_end_eq by done.
    eexists _, _; split; [reflexivity|]. split; simpl; (assumption || lia).
  - rewrite get_training_progress_eq by lia.
    eexists _, _; split; [reflexivity|]. by split.
  - rewrite get_val_progress_eq by lia.
    eexists _, _; split; [reflexivity|]. by split.
  - rewrite get_val_eta_eq.
    eexists _, _; split; [reflexivity|]. by split.
  - rewrite get_training_eta_eq by lia.
    eexists _, _; split; [reflexivity|]. by split.
Qed.

Lemma perform_all_ok (cs : list call) (p : Proc) :
  Inv T n v (self p) →
  ∃ vs p', perform_all cs p = (inr vs, p') ∧ Inv T n v (self p').
Proof.
  revert p. induction cs as [|c cs IH]; intros p HI; simpl.
  - by eexists _, _.
  - destruct (perform_ok c p HI) as (r & p1 & Hc & HI1).
    destruct (IH p1 HI1) as (vs & p2 & Hcs & HI2).
    exists (r :: vs), p2. unfold Py.bind. by rewrite Hc, Hcs.
Qed.

(** After [init] with positive parameters every sequence of calls runs to
    its end, and leaves a state that satisfies the invariant. *)
Lemma monitor_after_ok (cs : list call) :
  ∃ m, monitor_after T n v cs = Some m ∧ Inv T n v m.
Proof.
  unfold monitor_after.
  destruct init_ok as (m0 & -> & HI0).
  destruct (perform_all_ok cs (fresh m0) HI0) as (vs & p' & -> & HI).
  by exists (self p').
Qed.

End Reachability.

(** ** PerformanceMonitor: the getters *)




(** One training batch of 4 seconds, one validation batch of 1 second,
    4 validation steps left: the estimate is 16, from the training
    average, not 4. *)
Example get_val_eta_after_one_batch_each :
  ∃ m, monitor_after 2 10 5
         [OnTrainBatchBegin (float_of_int 0); OnTrainBatchEnd (float_of_int 4);
          OnValBatchBegin (float_of_int 4); OnValBatchEnd (float_of_int 5)]
       = Some m ∧
       fst (get_val_eta (proc m [])) = inr 16 ∧
       int_of_float (float_of_int (5 - val_steps_passed m)
                     * avg_val_batch_time m)%Qc = 4.
Proof. eexists. repeat split; vm_compute; reflexivity. Qed.




(** The specification's example: one full epoch out of two gives 50. *)
Example training_progress_after_one_epoch_of_two :
  ∃ m, monitor_after 2 10 5 [OnTrainEpochEnd (float_of_int 7)] = Some m ∧
       fst (get_training_progress (proc m [])) = inr 50.
Proof. eexists. split; vm_compute; reflexivity. Qed.







(** ** PerformanceMonitor: the running averages *)



Lemma perform_all_cons (c : call) (cs : list call) (p : Proc) :
  perform_all (c :: cs) p
  = match perform c p with
    | (inr x, p1) =>
        match perform_all cs p1 with
        | (inr xs, p2) => (inr (x :: xs), p2)
        | (inl e, p2) => (inl e, p2)
        end
    | (inl e, p1) => (inl e, p1)
    end.
Proof.
  cbn [perform_all]. unfold Py.bind, Py.ret.
  destruct (perform c p) as [[e|x] p1]; [reflexivity|].
  destruct (perform_all cs p1) as [[e|xs] p2]; reflexivity.
Qed.










(** ** PerformanceMonitor: the getters change nothing *)

Lemma getter_keeps_self (c : call) (p : Proc) :
  is_getter c = true → self (snd (perform c p)) = self p.
Proof.
  destruct c; try discriminate; intros _;
    unfold_method; repeat case_decide; reflexivity.
Qed.

(** What a call returns and the monitor it leaves depend on the monitor
    alone, not on what has been printed so far. *)
Lemma perform_same_self (c : call) (p q : Proc) :
  self p = self q →
  fst (perform c p) = fst (perform c q) ∧
  self (snd (perform c p)) = self (snd (perform c q)).
Proof.
  destruct p as [m out], q as [m' out']. simpl. intros <-.
  destruct c; unfold_method; simpl; repeat (case_decide; simpl);
    split; reflexivity.
Qed.

Lemma perform_all_same_self (cs : list call) (p q : Proc) :
  self p = self q →
  fst (perform_all cs p) = fst (perform_all cs q) ∧
  self (snd (perform_all cs p)) = self (snd (perform_all cs q)).
Proof.
  revert p q. induction cs as [|c cs IH]; intros p q Hpq.
  - by split.
  - rewrite !perform_all_cons.
    destruct (perform_same_self c p q Hpq) as [Hv Hs].
    destruct (perform c p) as [[e|x] p1], (perform c q) as [[e'|x'] q1];
      simpl in Hv, Hs; try discriminate.
    + injection Hv as <-. split; simpl; [reflexivity|assumption].
    + injection Hv as <-.
      destruct (IH p1 q1 Hs) as [Hvs Hss].
      destruct (perform_all cs p1) as [[e|xs] p2],
               (perform_all cs q1) as [[e'|xs'] q2];
        simpl in Hvs, Hss; try discriminate.
      * split; simpl; assumption.
      * injection Hvs as <-. by split.
Qed.

Lemma perform_all_app (cs1 cs2 : list call) (p : Proc) :
  perform_all (cs1 ++ cs2) p
  = match perform_all cs1 p with
    | (inr xs, p1) =>
        match perform_all cs2 p1 with
        | (inr ys, p2) => (inr (xs ++ ys), p2)
        | (inl e, p2) => (inl e, p2)
        end
    | (inl e, p1) => (inl e, p1)
    end.
Proof.
  revert p. induction cs1 as [|c cs1 IH]; intros p.
  - simpl. unfold Py.ret. by destruct (perform_all cs2 p) as [[e|ys] p2].
  - rewrite <- app_comm_cons, !perform_all_cons.
    destruct (perform c p) as [[e|x] p1]; [reflexivity|].
    rewrite IH.
    destruct (perform_all cs1 p1) as [[e|xs] p2]; [reflexivity|].
    by destruct (perform_all cs2 p2) as [[e|ys] p3].
Qed.

Lemma perform_all_length (cs : list call) (p p' : Proc) (vs : list value) :
  perform_all cs p = (inr vs, p') → length vs = length cs.
Proof.
  revert p vs. induction cs as [|c cs IH]; intros p vs.
  - simpl. unfold Py.ret. intros H. by inversion H.
  - rewrite perform_all_cons.
    destruct (perform c p) as [[e|x] p1]; [discriminate|].
    destruct (perform_all cs p1) as [[e|xs] p2] eqn:Hcs; [discriminate|].
    intros H. inversion H; subst. simpl. f_equal. by eapply IH.
Qed.

Lemma getters_keep_self (T n v : Z) (gs : list call) (p : Proc) :
  1 ≤ T → 1 ≤ n → 1 ≤ v →
  Inv T n v (self p) →
  Forall (λ c, is_getter c = true) gs →
  ∃ vs p', perform_all gs p = (inr vs, p') ∧ self p' = self p.
Proof.
  intros HT Hn Hv. revert p.
  induction gs as [|g gs IH]; intros p HI Hgs.
  - by eexists _, _.
  - apply Forall_cons in Hgs as [Hg Hgs].
    rewrite perform_all_cons.
    pose proof (getter_keeps_self g p Hg) as Hself.
    destruct (perform_ok T n v HT Hn Hv g p HI) as (x & p1 & Hrun & HI1).
    rewrite Hrun in Hself |- *. simpl in Hself.
    destruct (IH p1 HI1 Hgs) as (xs & p2 & -> & Hself2).
    eexists _, _. split; [reflexivity|]. congruence.
Qed.

(** C10. A getter leaves every attribute of the monitor as it found it,
    on any state and whether or not it raises; so, after [init] with
    positive parameters, getter calls [gs] put anywhere into a sequence of
    calls change neither the monitor that the sequence leaves nor any value
    that a later call returns. *)
Theorem getters_change_nothing
    (T n v : Z) (cs1 gs cs2 : list call) (p : Proc) :
  1 ≤ T → 1 ≤ n → 1 ≤ v →
  Forall (λ c, is_getter c = true) gs →
  self (snd (get_training_progress p)) = self p ∧
  self (snd (get_val_progress p)) = self p ∧
  self (snd (get_val_eta p)) = self p ∧
  self (snd (get_training_eta p)) = self p ∧
  (∃ m, monitor_after T n v (cs1 ++ cs2) = Some m ∧
        monitor_after T n v (cs1 ++ gs ++ cs2) = Some m) ∧
  (∃ vs, drop (length cs1) <$> returned_after T n v (cs1 ++ cs2) = Some vs ∧
         drop (length cs1 + length gs)
           <$> returned_after T n v (cs1 ++ gs ++ cs2) = Some vs).
Proof.
  intros HT Hn Hv Hgs.
  split; [|split; [|split; [|split]]];
    try (unfold_method; simpl; repeat (case_decide; simpl); reflexivity).
  assert (∃ m vs, (monitor_after T n v (cs1 ++ cs2) = Some m ∧
                   monitor_after T n v (cs1 ++ gs ++ cs2) = Some m) ∧
                  drop (length cs1) <$> returned_after T n v (cs1 ++ cs2)
                  = Some vs ∧
                  drop (length cs1 + length gs)
                    <$> returned_after T n v (cs1 ++ gs ++ cs2) = Some vs)
    as (m & vs & Hm & Hvs); [|split; [by exists m|by exists vs]].
  unfold monitor_after, returned_after.
  destruct (init_ok T n v HT) as (m0 & -> & HI0).
  rewrite !perform_all_app.
  destruct (perform_all_ok T n v HT Hn Hv cs1 (fresh m0) HI0)
    as (vs1 & p1 & Hrun1 & HI1).
  destruct (getters_keep_self T n v gs p1 HT Hn Hv HI1 Hgs)
    as (vsg & pg & Hrung & Hself).
  destruct (perform_all_ok T n v HT Hn Hv cs2 p1 HI1)
    as (vs2 & p2 & Hrun2 & HI2).
  destruct (perform_all_same_self cs2 pg p1 Hself) as [Hfst Hsnd].
  rewrite Hrun1, perform_all_app, Hrung, Hrun2. rewrite Hrun2 in Hfst, Hsnd.
  destruct (perform_all cs2 pg) as [[e|vs2'] pg2]; simpl in Hfst, Hsnd;
    [discriminate|]. injection Hfst as ->.
  exists (self p2), vs2. rewrite Hsnd. split; [done|]. simpl.
  apply perform_all_length in Hrun1, Hrung.
  split; f_equal.
  - by apply drop_app_length'.
  - rewrite app_assoc. apply drop_app_length'.
    rewrite length_app. lia.
Qed.

Lemma getters_change_nothing_witness :
  ∃ m, monitor_after 2 10 5
         ([OnTrainBatchBegin (float_of_int 0)]
          ++ [OnTrainBatchEnd (float_of_int 3); GetTrainingEta]) = Some m ∧
       monitor_after 2 10 5
         ([OnTrainBatchBegin (float_of_int 0)]
          ++ [GetValProgress; GetTrainingEta; GetValEta; GetTrainingProgress]
          ++ [OnTrainBatchEnd (float_of_int 3); GetTrainingEta]) = Some m.
Proof.
  refine (proj1 (proj2 (proj2 (proj2 (proj2
    (getters_change_nothing 2 10 5
       [OnTrainBatchBegin (float_of_int 0)]
       [GetValProgress; GetTrainingEta; GetValEta; GetTrainingProgress]
       [OnTrainBatchEnd (float_of_int 3); GetTrainingEta]
       (fresh (set_train_steps_passed 0
                 {| total_epochs := 2; num_train_steps := 10;
                    num_validation_steps := 5; train_steps_passed := 0;
                    val_steps_passed := 0; train_epochs_passed := 0;
                    granularity := Q2Qc (1 # 2); start_epoch_time := 0%Qc;
                    start_batch_time := 0%Qc; avg_epoch_time := 0%Qc;
                    avg_batch_time := 0%Qc; avg_val_batch_time := 0%Qc |}))
       _ _ _ _)))))); try lia.
  repeat constructor.
Defined.

(** ** DefaultStopCallback *)

Import DefaultStopCallback.

Lemma perform_stop_calls_eq (cs : list stop_call) (s : DefaultStopCallback) :
  perform_stop_calls cs s = (inr (replicate (length cs) VNone), s).
Proof.
  induction cs as [|c cs IH]; [reflexivity|].
  cbn [perform_stop_calls]. unfold Py.bind.
  replace (perform_stop_call c s) with (@inr error value VNone, s)
    by (by destruct c).
  by rewrite IH.
Qed.

(** C8: what the code does.  Whatever calls came before, [check_stop()]
    returns [None]: a value whose truth value is false, but not the boolean
    [False]; and no call changes the object. *)
Theorem check_stop_returns_None (cs : list stop_call) (s : DefaultStopCallback) :
  perform_stop_calls (cs ++ [CheckStop]) s
  = (inr (replicate (length cs) VNone ++ [VNone]), s) ∧
  truth VNone = false ∧
  VNone ≠ VBool false.
Proof.
  split; [|split; [reflexivity|discriminate]].
  rewrite perform_stop_calls_eq, length_app. simpl.
  by rewrite Nat.add_1_r, replicate_S_end.
Qed.

(** The wired variant does return a boolean. *)
Example StopCallback_stop_then_check :
  fst (StopCallback.check_stop (snd (StopCallback.stop StopCallback.__init__)))
  = inr (VBool true) ∧
  fst (StopCallback.check_stop
         (snd (StopCallback.reset (snd (StopCallback.stop
                                          StopCallback.__init__)))))
  = inr (VBool false).
Proof. split; reflexivity. Qed.

(** ** DefaultMetricsMonitor *)

Import DefaultMetricsMonitor.

Lemma add_scalars_untimed (calls1 calls2 : list (string * float * Z))
    (s : DefaultMetricsMonitor) :
  untimed calls1 = untimed calls2 → add_scalars calls1 s = add_scalars calls2 s.
Proof.
  revert calls2 s.
  induction calls1 as [|[[c1 x1] t1] calls1 IH];
    intros [|[[c2 x2] t2] calls2] s H; try discriminate; [reflexivity|].
  injection H as -> -> H.
  cbn [add_scalars]. unfold Py.bind.
  replace (add_scalar c2 x2 t1 s) with (add_scalar c2 x2 t2 s) by reflexivity.
  destruct (add_scalar c2 x2 t2 s) as [[e|r] s']; [reflexivity|].
  by apply IH.
Qed.

Lemma add_scalar_eq (capture : string) (x : float) (t : Z)
    (s : DefaultMetricsMonitor) :
  add_scalar capture x t s
  = (inr VNone,
     {| metrics_dict :=
          <[capture := default [] (metrics_dict s !! capture) ++ [x]]>
            (metrics_dict s) |}).
Proof.
  unfold add_scalar, Py.bind, Py.get, Py.modify, Py.ret.
  by destruct (metrics_dict s !! capture).
Qed.

Lemma add_scalars_lookup (calls : list (string * float * Z))
    (s : DefaultMetricsMonitor) (capture : string) :
  ∃ s', add_scalars calls s = (inr tt, s') ∧
        metrics_dict s' !! capture
        = match values_for capture calls with
          | [] => metrics_dict s !! capture
          | x :: xs =>
              Some (default [] (metrics_dict s !! capture) ++ x :: xs)
          end.
Proof.
  revert s. induction calls as [|[[c x] t] calls IH]; intros s.
  - by eexists.
  - cbn [add_scalars]. unfold Py.bind. rewrite add_scalar_eq.
    match goal with
    | |- context [add_scalars _ ?q] => destruct (IH q) as (s' & -> & Hs')
    end.
    exists s'. split; [reflexivity|]. rewrite Hs'. cbn [metrics_dict].
    unfold values_for. rewrite filter_cons. cbn [fst snd].
    destruct (decide (c = capture)) as [->|Hne].
    + rewrite lookup_insert_eq. cbn [map].
      destruct (map _ (filter _ calls)) as [|y ys]; simpl; [reflexivity|].
      by rewrite <- app_assoc.
    + by rewrite lookup_insert_ne.
Qed.

(** C9. Two sequences of [add_scalar] calls that differ only in their
    timestamps leave the same monitor, so [get_metric_values] answers the
    same for every name; started on a new monitor, the list stored under a
    name holds the values logged under it, in call order, and nothing
    else. *)
Theorem add_scalar_discards_timestamp
    (calls1 calls2 : list (string * float * Z)) (s : DefaultMetricsMonitor)
    (capture : string) :
  untimed calls1 = untimed calls2 →
  snd (add_scalars calls1 s) = snd (add_scalars calls2 s) ∧
  fst (get_metric_values capture (snd (add_scalars calls1 s)))
  = fst (get_metric_values capture (snd (add_scalars calls2 s))) ∧
  fst (get_metric_values capture (snd (add_scalars calls1 __init__)))
  = match values_for capture calls1 with
    | [] => inl KeyError
    | x :: xs => inr (x :: xs)
    end.
Proof.
  intros H. rewrite (add_scalars_untimed calls1 calls2 s H).
  split; [reflexivity|]. split; [reflexivity|].
  destruct (add_scalars_lookup calls1 __init__ capture) as (s' & -> & Hs').
  unfold get_metric_values, Py.bind, Py.get. cbn [snd].
  rewrite Hs'. cbn [__init__ metrics_dict]. rewrite lookup_empty.
  by destruct (values_for capture calls1).
Qed.

Lemma add_scalar_discards_timestamp_witness :
  fst (get_metric_values "loss"
         (snd (add_scalars [("loss", float_of_int 1, 0);
                            ("acc", float_of_int 9, 0);
                            ("loss", float_of_int 2, 1);
                            ("loss", float_of_int 3, 2)] __init__)))
  = fst (get_metric_values "loss"
           (snd (add_scalars [("loss", float_of_int 1, 700);
                              ("acc", float_of_int 9, 5);
                              ("loss", float_of_int 2, -3);
                              ("loss", float_of_int 3, 0)] __init__))).
Proof.
  refine (proj1 (proj2 (add_scalar_discards_timestamp _ _ __init__ "loss" _))).
  reflexivity.
Defined.

(** The specification's example: [1, 2, 3] logged under one name come
    back in call order. *)
Example metric_values_in_call_order :
  fst (get_metric_values "loss"
         (snd (add_scalars [("loss", float_of_int 1, 0);
                            ("loss", float_of_int 2, 1);
                            ("loss", float_of_int 3, 2)] __init__)))
  = inr [float_of_int 1; float_of_int 2; float_of_int 3].
Proof.
  vm_compute. reflexivity.
Qed.

(** ** GlobalMe.process_dir *)

Import GlobalMe.

Section ProcessDir.

Variable set_iter : gset Z → list Z.

(** *** The first loop *)

Lemma collect_pids_error (pre post : list string) (img_path : string)
    (e : error) (acc : gset Z) :
  Forall parses pre → parse img_path = inl e →
  collect_pids (pre ++ img_path :: post) acc = inl e.
Proof.
  revert acc. induction pre as [|p pre IH]; intros acc Hpre Hp.
  - simpl. by rewrite Hp.
  - apply Forall_cons in Hpre as [[[pid camid] Hpp] Hpre].
    simpl. rewrite Hpp. destruct (decide (pid = -1)); by apply IH.
Qed.

Lemma collect_pids_ok (img_paths : list string) (acc : gset Z) :
  Forall parses img_paths →
  collect_pids img_paths acc
  = inr (acc ∪ list_to_set (pid_of <$> raw_samples img_paths)).
Proof.
  revert acc. induction img_paths as [|p ps IH]; intros acc Hps.
  - simpl. by rewrite (right_id_L ∅ (∪)).
  - apply Forall_cons in Hps as [[[pid camid] Hp] Hps].
    unfold raw_samples. cbn [collect_pids omap list_omap].
    unfold raw_sample at 1. rewrite Hp.
    destruct (decide (pid = -1)); rewrite IH by done; [done|].
    f_equal. cbn [fmap list_fmap list_to_set]. unfold pid_of at 2. cbn [fst snd].
    by rewrite (comm_L (∪) {[pid]} acc), <- (assoc_L (∪)).
Qed.

(** Every list of paths splits at its first path that does not parse, if
    it has one. *)
Lemma first_failure (img_paths : list string) :
  Forall parses img_paths ∨
  ∃ pre p post e, img_paths = pre ++ p :: post ∧ Forall parses pre ∧
                  parse p = inl e.
Proof.
  induction img_paths as [|p ps IH]; [by left|].
  destruct (parse p) as [e|r] eqn:Hp.
  - right. by exists [], p, ps, e.
  - destruct IH as [IH|(pre & q & post & e & -> & Hpre & Hq)].
    + left. constructor; [by exists r|done].
    + right. exists (p :: pre), q, post, e.
      split; [done|]. split; [|done]. constructor; [by exists r|done].
Qed.

(** *** The label dictionary *)

Hypothesis set_iter_perm : ∀ s, set_iter s ≡ₚ elements s.

Lemma enumerate_insert_notin (l : list Z) (start : Z) (d : gmap Z Z) (pid : Z) :
  pid ∉ l →
  foldl (λ d '(label, pid), <[pid := label]> d) d (enumerate_from start l)
    !! pid = d !! pid.
Proof.
  revert start d. induction l as [|x l IH]; intros start d Hpid; [done|].
  apply not_elem_of_cons in Hpid as [Hne Hpid].
  cbn [enumerate_from foldl]. rewrite IH by done.
  by apply lookup_insert_ne.
Qed.

Lemma enumerate_insert_in (l : list Z) (start : Z) (d : gmap Z Z) (pid : Z)
    (i : nat) :
  NoDup l → l !! i = Some pid →
  foldl (λ d '(label, pid), <[pid := label]> d) d (enumerate_from start l)
    !! pid = Some (start + Z.of_nat i).
Proof.
  revert start d i. induction l as [|x l IH]; intros start d i Hnd Hi;
    [done|].
  apply NoDup_cons in Hnd as [Hx Hnd]. cbn [enumerate_from foldl].
  destruct i as [|i]; simpl in Hi.
  - injection Hi as ->. rewrite enumerate_insert_notin by done.
    rewrite lookup_insert_eq. f_equal. lia.
  - rewrite (IH _ _ i) by done. f_equal. lia.
Qed.

Lemma set_iter_NoDup (s : gset Z) : NoDup (set_iter s).
Proof. rewrite set_iter_perm. apply NoDup_elements. Qed.

Lemma set_iter_elem_of (s : gset Z) (x : Z) : x ∈ set_iter s ↔ x ∈ s.
Proof. rewrite set_iter_perm. apply elem_of_elements. Qed.

Lemma set_iter_length (s : gset Z) : length (set_iter s) = size s.
Proof. by rewrite set_iter_perm. Qed.

(** Every identity of the set has a label below the size of the set, and
    every such label belongs to an identity of the set. *)
Lemma make_pid2label_label (s : gset Z) (pid : Z) :
  pid ∈ s →
  ∃ label, make_pid2label set_iter s !! pid = Some label ∧
           0 ≤ label < Z.of_nat (size s).
Proof.
  intros Hpid. apply set_iter_elem_of, list_elem_of_lookup in Hpid as [i Hi].
  exists (Z.of_nat i). unfold make_pid2label, enumerate.
  rewrite (enumerate_insert_in _ _ _ _ i) by (done || apply set_iter_NoDup).
  split; [f_equal; lia|].
  apply lookup_lt_Some in Hi. rewrite set_iter_length in Hi. lia.
Qed.

Lemma make_pid2label_pid (s : gset Z) (label : Z) :
  0 ≤ label < Z.of_nat (size s) →
  ∃ pid, pid ∈ s ∧ make_pid2label set_iter s !! pid = Some label.
Proof.
  intros Hl.
  destruct (lookup_lt_is_Some_2 (set_iter s) (Z.to_nat label)) as [pid Hi];
    [rewrite set_iter_length; lia|].
  exists pid. split.
  - apply set_iter_elem_of, list_elem_of_lookup. by exists (Z.to_nat label).
  - unfold make_pid2label, enumerate.
    rewrite (enumerate_insert_in _ _ _ _ (Z.to_nat label))
      by (done || apply set_iter_NoDup).
    f_equal. lia.
Qed.

(** *** The second loop *)

Lemma raw_sample_Some (img_path : string) (s : sample) :
  raw_sample img_path = Some s ↔
  img_path_of s = img_path ∧ pid_of s ≠ -1 ∧
  parse img_path = inr (pid_of s, camid_of s).
Proof.
  unfold raw_sample. destruct s as [[p pid] camid]. cbn.
  destruct (parse img_path) as [e|[pid' camid']].
  - split; [done|]. by intros (_ & _ & ?).
  - destruct (decide (pid' = -1)) as [->|Hne].
    + split; [done|]. intros (_ & ? & [= ? ?]). congruence.
    + split.
      * by intros [= <- <- <-].
      * by intros (-> & _ & [= -> ->]).
Qed.

(** Whatever the flag, and whether or not the loop ends well, the paths it
    has appended are the paths of the raw samples, in order. *)
Lemma build_data_paths (d : gmap Z Z) (relabel : bool)
    (img_paths : list string) (acc data : list sample) :
  build_data d relabel img_paths acc = inr data →
  img_path_of <$> data
  = (img_path_of <$> acc) ++ (img_path_of <$> raw_samples img_paths).
Proof.
  revert acc. induction img_paths as [|p ps IH]; intros acc.
  - simpl. intros [= <-]. by rewrite app_nil_r.
  - unfold raw_samples. cbn [build_data omap list_omap].
    unfold raw_sample at 1.
    destruct (parse p) as [e|[pid camid]]; [done|].
    destruct (decide (pid = -1)); [apply IH|].
    destruct relabel; [destruct (d !! pid) as [label|]; [|done]|];
      intros H; apply IH in H; rewrite H, fmap_app, <- app_assoc; done.
Qed.

Lemma build_data_raw (d : gmap Z Z) (img_paths : list string)
    (acc : list sample) :
  Forall parses img_paths →
  build_data d false img_paths acc = inr (acc ++ raw_samples img_paths).
Proof.
  revert acc. induction img_paths as [|p ps IH]; intros acc Hps.
  - simpl. by rewrite app_nil_r.
  - apply Forall_cons in Hps as [[[pid camid] Hp] Hps].
    unfold raw_samples. cbn [build_data omap list_omap].
    unfold raw_sample at 1. rewrite Hp.
    destruct (decide (pid = -1)); rewrite IH by done; [done|].
    by rewrite <- app_assoc.
Qed.

Lemma raw_samples_cons (p : string) (ps : list string) :
  raw_samples (p :: ps)
  = match raw_sample p with
    | Some s => s :: raw_samples ps
    | None => raw_samples ps
    end.
Proof. reflexivity. Qed.

Lemma raw_sample_parse (p : string) (pid camid : Z) :
  parse p = inr (pid, camid) →
  raw_sample p = if decide (pid = -1) then None else Some (p, pid, camid).
Proof. unfold raw_sample. by intros ->. Qed.

Lemma build_data_relabelled (d : gmap Z Z) (img_paths : list string)
    (acc : list sample) :
  Forall parses img_paths →
  (∀ s, s ∈ raw_samples img_paths → is_Some (d !! pid_of s)) →
  build_data d true img_paths acc
  = inr (acc ++ (relabelled d <$> raw_samples img_paths)).
Proof.
  revert acc. induction img_paths as [|p ps IH]; intros acc Hps Hd.
  - simpl. by rewrite app_nil_r.
  - apply Forall_cons in Hps as [[[pid camid] Hp] Hps].
    rewrite raw_samples_cons, (raw_sample_parse p pid camid Hp) in Hd |- *.
    cbn [build_data]. rewrite Hp.
    destruct (decide (pid = -1)); [by apply IH|].
    destruct (Hd (p, pid, camid)) as [label Hl]; [by left|].
    unfold pid_of in Hl. simpl in Hl. rewrite Hl, IH; [|done|].
    + assert (relabelled d (p, pid, camid) = (p, label, camid)) as E
        by (unfold relabelled, pid_of, img_path_of, camid_of; cbn [fst snd];
            by rewrite Hl).
      by rewrite fmap_cons, E, <- app_assoc.
    + intros s Hs. apply Hd. by right.
Qed.

(** *** The scan *)

Lemma size_distinct (l : list Z) :
  size (list_to_set l : gset Z) = length (remove_dups l).
Proof.
  rewrite <- (size_list_to_set (C:=gset Z) (remove_dups l))
    by apply NoDup_remove_dups.
  f_equal. apply set_eq. intros x.
  by rewrite !elem_of_list_to_set, elem_of_remove_dups.
Qed.

Lemma process_dir_error (pre post : list string) (img_path : string)
    (e : error) (relabel : bool) :
  Forall parses pre → parse img_path = inl e →
  process_dir set_iter (pre ++ img_path :: post) relabel = inl e.
Proof.
  intros Hpre Hp. unfold process_dir.
  by rewrite (collect_pids_error pre post img_path e).
Qed.


(** C6. A path whose parsed identity is [-1] is the path of no sample
    that [process_dir] returns, whatever the flag, and so of no sample of
    the train, query and gallery splits. *)
Theorem sentinel_never_in_output (img_path : string) (camid : Z) :
  parse img_path = inr (-1, camid) →
  (∀ img_paths relabel data,
     process_dir set_iter img_paths relabel = inr data →
     img_path ∉ (img_path_of <$> data)) ∧
  (∀ train_paths query_paths gallery_paths extra_paths market1501_500k
     train query gallery,
     __init__ set_iter train_paths query_paths gallery_paths extra_paths
              market1501_500k = inr (train, query, gallery) →
     (img_path ∉ (img_path_of <$> train)) ∧
     (img_path ∉ (img_path_of <$> query)) ∧
     (img_path ∉ (img_path_of <$> gallery))).
Proof.
  intros Hp.
  assert (Hdir : ∀ img_paths relabel data,
             process_dir set_iter img_paths relabel = inr data →
             img_path ∉ (img_path_of <$> data)).
  { intros img_paths relabel data Hrun Hin. unfold process_dir in Hrun.
    destruct (collect_pids img_paths ∅) as [e|pids]; [done|].
    apply build_data_paths in Hrun. rewrite Hrun in Hin. simpl in Hin.
    apply list_elem_of_fmap in Hin as (s & -> & Hs).
    apply list_elem_of_omap in Hs as (q & _ & Hq).
    apply raw_sample_Some in Hq as (<- & Hne & Hq).
    rewrite Hp in Hq. injection Hq as Hpid _. congruence. }
  split; [exact Hdir|].
  intros tr qs gs xs flag train query gallery Hinit. unfold __init__ in Hinit.
  destruct (process_dir set_iter tr true) as [e|train'] eqn:Htr; [done|].
  destruct (process_dir set_iter qs false) as [e|query'] eqn:Hq; [done|].
  destruct (process_dir set_iter gs false) as [e|gallery'] eqn:Hg; [done|].
  destruct flag.
  - destruct (process_dir set_iter xs false) as [e|extra] eqn:Hx; [done|].
    injection Hinit as <- <- <-.
    split; [exact (Hdir _ _ _ Htr)|]. split; [exact (Hdir _ _ _ Hq)|].
    rewrite fmap_app, elem_of_app.
    intros [H|H]; [exact (Hdir _ _ _ Hg H)|exact (Hdir _ _ _ Hx H)].
  - injection Hinit as <- <- <-.
    split; [exact (Hdir _ _ _ Htr)|].
    split; [exact (Hdir _ _ _ Hq)|exact (Hdir _ _ _ Hg)].
Qed.

(** C5, amended. When every path parses (the pattern matches and the
    identity group is an integer literal), [process_dir] returns: without
    relabelling, the samples with their parsed identities; with
    relabelling, the same paths and cameras with identities whose set is
    exactly [{0, ..., k-1}], [k] the number of distinct identities other
    than [-1]. *)
Theorem process_dir_labels (img_paths : list string) :
  Forall parses img_paths →
  process_dir set_iter img_paths false = inr (raw_samples img_paths) ∧
  ∃ data,
    process_dir set_iter img_paths true = inr data ∧
    img_path_of <$> data = img_path_of <$> raw_samples img_paths ∧
    camid_of <$> data = camid_of <$> raw_samples img_paths ∧
    ∀ label,
      label ∈ (pid_of <$> data) ↔
      0 ≤ label
      < Z.of_nat (length (remove_dups (pid_of <$> raw_samples img_paths))).
Proof.
  intros Hall. unfold process_dir.
  rewrite (collect_pids_ok img_paths ∅ Hall), (left_id_L ∅ (∪)).
  set (pids := list_to_set (pid_of <$> raw_samples img_paths) : gset Z).
  set (d := make_pid2label set_iter pids).
  split; [by rewrite build_data_raw|].
  exists (relabelled d <$> raw_samples img_paths).
  assert (Hd : ∀ s, s ∈ raw_samples img_paths → is_Some (d !! pid_of s)).
  { intros s Hs.
    destruct (make_pid2label_label pids (pid_of s)) as (label & Hl & _).
    - apply elem_of_list_to_set, list_elem_of_fmap. by exists s.
    - by exists label. }
  split; [by rewrite build_data_relabelled|].
  split; [by rewrite <- list_fmap_compose|].
  split; [by rewrite <- list_fmap_compose|].
  intros label. rewrite <- size_distinct. fold pids.
  rewrite <- list_fmap_compose. split.
  - intros (s & -> & Hs)%list_elem_of_fmap.
    destruct (make_pid2label_label pids (pid_of s)) as (label & Hl & Hb).
    + apply elem_of_list_to_set, list_elem_of_fmap. by exists s.
    + unfold compose, relabelled, pid_of at 1. cbn [fst snd].
      fold d in Hl. by rewrite Hl.
  - intros Hb.
    destruct (make_pid2label_pid pids label Hb) as (pid & Hpid & Hl).
    apply elem_of_list_to_set, list_elem_of_fmap in Hpid as (s & -> & Hs).
    apply list_elem_of_fmap. exists s. split; [|done].
    unfold compose, relabelled, pid_of at 1. cbn [fst snd].
    fold d in Hl. by rewrite Hl.
Qed.

End ProcessDir.


Lemma sentinel_never_in_output_witness :
  ∃ data,
    process_dir elements
      ["bounding_box_test/-1_c3s1_000401_00.jpg";
       "bounding_box_test/0007_c1s1_000151_00.jpg"] true = inr data ∧
    "bounding_box_test/-1_c3s1_000401_00.jpg" ∉ (img_path_of <$> data).
Proof.
  eexists. split; [vm_compute; reflexivity|].
  refine (proj1 (sentinel_never_in_output elements
                   "bounding_box_test/-1_c3s1_000401_00.jpg" 3 _)
                ["bounding_box_test/-1_c3s1_000401_00.jpg";
                 "bounding_box_test/0007_c1s1_000151_00.jpg"] true _ _);
    vm_compute; reflexivity.
Defined.

(** C5, as stated, fails: the pattern matches a name whose identity group
    is not an integer literal, and the scan then raises [ValueError]
    instead of returning labels. *)
Lemma matching_name_not_an_integer :
  search "bounding_box_train/1-2_c3s1_000151_00.jpg" = Some ("1-2", "3"%char) ∧
  process_dir elements ["bounding_box_train/1-2_c3s1_000151_00.jpg"] true
  = inl ValueError ∧
  process_dir elements ["bounding_box_train/1-2_c3s1_000151_00.jpg"] false
  = inl ValueError.
Proof. repeat split; vm_compute; reflexivity. Qed.

Lemma process_dir_labels_witness :
  process_dir elements
    ["train/0007_c1s1_000151_00.jpg"; "train/-1_c1s1_000401_00.jpg";
     "train/0003_c2s1_000301_00.jpg"; "train/0007_c3s2_000151_00.jpg"] false
  = inr (raw_samples
           ["train/0007_c1s1_000151_00.jpg"; "train/-1_c1s1_000401_00.jpg";
            "train/0003_c2s1_000301_00.jpg"; "train/0007_c3s2_000151_00.jpg"]) ∧
  ∃ data,
    process_dir elements
      ["train/0007_c1s1_000151_00.jpg"; "train/-1_c1s1_000401_00.jpg";
       "train/0003_c2s1_000301_00.jpg"; "train/0007_c3s2_000151_00.jpg"] true
    = inr data ∧
    img_path_of <$> data
    = img_path_of <$> raw_samples
        ["train/0007_c1s1_000151_00.jpg"; "train/-1_c1s1_000401_00.jpg";
         "train/0003_c2s1_000301_00.jpg"; "train/0007_c3s2_000151_00.jpg"] ∧
    camid_of <$> data
    = camid_of <$> raw_samples
        ["train/0007_c1s1_000151_00.jpg"; "train/-1_c1s1_000401_00.jpg";
         "train/0003_c2s1_000301_00.jpg"; "train/0007_c3s2_000151_00.jpg"] ∧
    ∀ label,
      label ∈ (pid_of <$> data) ↔
      0 ≤ label
      < Z.of_nat
          (length
             (remove_dups
                (pid_of <$> raw_samples
                   ["train/0007_c1s1_000151_00.jpg";
                    "train/-1_c1s1_000401_00.jpg";
                    "train/0003_c2s1_000301_00.jpg";
                    "train/0007_c3s2_000151_00.jpg"]))).
Proof.
  apply (process_dir_labels elements (λ s, reflexivity (elements s))).
  repeat constructor; eexists; vm_compute; reflexivity.
Defined.

(** The labels of the example, with this iteration order of the set. *)
Example process_dir_relabel_example :
  pid_of <$> default []
    (match process_dir elements
             ["train/0007_c1s1_000151_00.jpg"; "train/-1_c1s1_000401_00.jpg";
              "train/0003_c2s1_000301_00.jpg"; "train/0007_c3s2_000151_00.jpg"]
             true with
     | inr data => Some data
     | inl _ => None
     end) = [0; 1; 0].
Proof. vm_compute. reflexivity. Qed.

(** * Further properties *)

(** ** PerformanceMonitor *)

Lemma init_inv (T n v : Z) :
  T ≠ 0 → ∃ m0, init T n v = inr m0 ∧ Inv T n v m0.
Proof.
  intros HT. unfold init. destruct (decide (T = 0)); [done|].
  eexists; split; [reflexivity|]. split; simpl; (reflexivity || lia).
Qed.

(** The calls that are not getters never raise, whatever the step counts,
    and keep the invariant. *)
Lemma lifecycle_ok (T n v : Z) (c : call) (p : Proc) :
  Inv T n v (self p) → is_getter c = false →
  ∃ p', perform c p = (inr VNone, p') ∧ Inv T n v (self p').
Proof.
  intros [HT Hn Hv Hg Hs Hvs He] Hc.
  destruct c; try discriminate; unfold perform, returns_none, Py.bind.
  - eexists; split; [reflexivity|]. split; simpl; (assumption || lia).
  - eexists; split; [reflexivity|]. split; simpl; (assumption || lia).
  - eexists; split; [reflexivity|]. split; simpl; (assumption || lia).
  - rewrite on_train_epoch_end_eq by done.
    eexists; split; [reflexivity|]. split; simpl; (assumption || lia).
  - eexists; split; [reflexivity|]. split; simpl; (assumption || lia).
  - rewrite on_train_batch_end_eq by done.
    eexists; split; [reflexivity|]. split; simpl; (assumption || lia).
  - eexists; split; [reflexivity|]. split; simpl; (assumption || lia).
  - rewrite on_val_batch_end_eq by done.
    eexists; split; [reflexivity|]. split; simpl; (assumption || lia).
Qed.

Lemma lifecycle_all_ok (T n v : Z) (cs : list call) (p : Proc) :
  Inv T n v (self p) → Forall (λ c, is_getter c = false) cs →
  ∃ vs p', perform_all cs p = (inr vs, p') ∧ Inv T n v (self p').
Proof.
  revert p. induction cs as [|c cs IH]; intros p HI Hcs.
  - by eexists _, _.
  - apply Forall_cons in Hcs as [Hc Hcs]. rewrite perform_all_cons.
    destruct (lifecycle_ok T n v c p HI Hc) as (p1 & -> & HI1).
    destruct (IH p1 HI1 Hcs) as (vs & p2 & -> & HI2).
    by eexists _, _.
Qed.

(** X1. [init] raises [ZeroDivisionError] exactly when [total_epochs] is
    0.  Zero step counts pass [init] and every call that is not a getter;
    after them [get_training_progress] and [get_training_eta] raise
    [ZeroDivisionError] exactly when [num_train_steps] is 0,
    [get_val_progress] exactly when [num_validation_steps] is 0, and
    [get_val_eta] never raises. *)
Theorem zero_counts_raise_in_getters
    (T n v : Z) (cs : list call) (out : list string) :
  Forall (λ c, is_getter c = false) cs →
  (init T n v = inl ZeroDivisionError ↔ T = 0) ∧
  (T ≠ 0 →
   ∃ m, monitor_after T n v cs = Some m ∧
        (fst (get_training_progress (proc m out)) = inl ZeroDivisionError
         ↔ n = 0) ∧
        (fst (get_training_eta (proc m out)) = inl ZeroDivisionError
         ↔ n = 0) ∧
        (fst (get_val_progress (proc m out)) = inl ZeroDivisionError
         ↔ v = 0) ∧
        ∃ x, fst (get_val_eta (proc m out)) = inr x).
Proof.
  intros Hcs. split.
  - unfold init. destruct (decide (T = 0)); split; done.
  - intros HT. unfold monitor_after.
    destruct (init_inv T n v HT) as (m0 & -> & HI0).
    destruct (lifecycle_all_ok T n v cs (fresh m0) HI0 Hcs)
      as (vs & p' & -> & [ET En Ev _ _ _ _]).
    exists (self p'). split; [reflexivity|].
    destruct p' as [m' out']. destruct m'. simpl in ET, En, Ev. subst.
    pose proof (float_of_int_0 T) as HT0.
    pose proof (float_of_int_0 n) as Hn0.
    pose proof (float_of_int_0 v) as Hv0.
    split; [|split; [|split; [|by eexists]]];
      unfold_method; simpl; repeat (case_decide; simpl);
      split; intros; (done || tauto).
Qed.

Lemma zero_counts_raise_in_getters_witness :
  ∃ m, monitor_after 3 0 0 [OnTrainBegin; OnValBatchBegin (float_of_int 2);
                            OnValBatchEnd (float_of_int 5)] = Some m ∧
       (fst (get_training_progress (proc m [])) = inl ZeroDivisionError
        ↔ 0 = 0) ∧
       (fst (get_training_eta (proc m [])) = inl ZeroDivisionError ↔ 0 = 0) ∧
       (fst (get_val_progress (proc m [])) = inl ZeroDivisionError ↔ 0 = 0) ∧
       ∃ x, fst (get_val_eta (proc m [])) = inr x.
Proof.
  refine (proj2 (zero_counts_raise_in_getters 3 0 0
                   [OnTrainBegin; OnValBatchBegin (float_of_int 2);
                    OnValBatchEnd (float_of_int 5)] [] _) _);
    [repeat constructor|lia].
Defined.

Lemma monitor_after_app (T n v : Z) (cs1 cs2 : list call)
    (m : PerformanceMonitor) (out : list string) :
  monitor_after T n v cs1 = Some m →
  monitor_after T n v (cs1 ++ cs2)
  = match perform_all cs2 (proc m out) with
    | (inr _, p) => Some (self p)
    | (inl _, _) => None
    end.
Proof.
  unfold monitor_after. destruct (init T n v) as [e|m0]; [done|].
  rewrite perform_all_app.
  destruct (perform_all cs1 (fresh m0)) as [[e|vs1] p1]; [done|].
  intros [= <-].
  destruct (perform_all_same_self cs2 p1 (proc (self p1) out) eq_refl)
    as [Hfst Hsnd].
  destruct (perform_all cs2 p1) as [[e|vs2] p2],
           (perform_all cs2 (proc (self p1) out)) as [[e'|vs2'] p2'];
    simpl in Hfst, Hsnd; try discriminate; [done|]. by rewrite Hsnd.
Qed.



(** The effect of one call on the three counters. *)
Lemma perform_counters (T n v : Z) (c : call) (p p' : Proc) (r : value) :
  Inv T n v (self p) → perform c p = (inr r, p') →
  train_epochs_passed (self p')
  = train_epochs_passed (self p) + (if is_epoch_end c then 1 else 0) ∧
  train_steps_passed (self p')
  = (if is_train_begin c then 0
     else train_steps_passed (self p)
          + (if is_train_batch_end c then 1 else 0)) ∧
  val_steps_passed (self p')
  = (if is_train_begin c || is_epoch_end c then 0
     else val_steps_passed (self p) + (if is_val_batch_end c then 1 else 0)).
Proof.
  intros [HT Hn Hv Hg Hs Hvs He].
  destruct (is_getter c) eqn:Hc.
  - pose proof (getter_keeps_self c p Hc) as Hself. intros Hrun.
    rewrite Hrun in Hself. simpl in Hself. rewrite Hself.
    destruct c; try discriminate; simpl; lia.
  - destruct c; try discriminate; unfold perform, returns_none, Py.bind;
      rewrite ?on_train_epoch_end_eq, ?on_train_batch_end_eq,
        ?on_val_batch_end_eq by done;
      intros H; inversion H; subst; simpl; lia.
Qed.

Lemma since_last_snoc (reset : call → bool) (cs : list call) (c : call) :
  since_last reset (cs ++ [c])
  = if reset c then [] else since_last reset cs ++ [c].
Proof. unfold since_last. by rewrite foldl_app. Qed.

Lemma count_snoc (which : call → bool) (cs : list call) (c : call) :
  count which (cs ++ [c]) = count which cs + (if which c then 1 else 0).
Proof.
  unfold count. rewrite filter_app, length_app, filter_cons, filter_nil.
  destruct (which c); simpl; lia.
Qed.

(** X3. After [init] with positive parameters and any calls,
    [train_epochs_passed] is the number of [on_train_epoch_end] calls made
    ([on_train_begin] does not reset it), [train_steps_passed] is the
    number of [on_train_batch_end] calls since the last [on_train_begin],
    and [val_steps_passed] the number of [on_val_batch_end] calls since the
    last [on_train_begin] or [on_train_epoch_end]. *)
Theorem counters_count_calls (T n v : Z) (cs : list call) :
  1 ≤ T → 1 ≤ n → 1 ≤ v →
  ∃ m, monitor_after T n v cs = Some m ∧
       train_epochs_passed m = count is_epoch_end cs ∧
       train_steps_passed m
       = count is_train_batch_end (since_last is_train_begin cs) ∧
       val_steps_passed m
       = count is_val_batch_end
           (since_last (λ c, is_train_begin c || is_epoch_end c) cs).
Proof.
  intros HT Hn Hv. induction cs as [|c cs IH] using rev_ind.
  - exists {| total_epochs := T; num_train_steps := n;
              num_validation_steps := v; train_steps_passed := 0;
              val_steps_passed := 0; train_epochs_passed := 0;
              granularity := (1 / float_of_int T)%Qc;
              start_epoch_time := 0%Qc; start_batch_time := 0%Qc;
              avg_epoch_time := 0%Qc; avg_batch_time := 0%Qc;
              avg_val_batch_time := 0%Qc |}.
    split; [|done]. unfold monitor_after, init.
    by destruct (decide (T = 0)); [lia|].
  - destruct IH as (m & Hm & He & Hs & Hvs).
    destruct (monitor_after_ok T n v HT Hn Hv cs) as (m1 & Hm1 & HI).
    rewrite Hm in Hm1. injection Hm1 as <-.
    rewrite (monitor_after_app T n v cs [c] m [] Hm), perform_all_cons.
    destruct (perform_ok T n v HT Hn Hv c (proc m []) HI)
      as (r & p' & Hrun & HI').
    rewrite Hrun. cbn [perform_all Py.ret].
    exists (self p'). split; [reflexivity|].
    destruct (perform_counters T n v c (proc m []) p' r HI Hrun)
      as (He' & Hs' & Hvs').
    rewrite He', Hs', Hvs', !since_last_snoc, !count_snoc. simpl self.
    rewrite He, Hs, Hvs.
    split; [done|]. split.
    + destruct (is_train_begin c); [done|]. by rewrite count_snoc.
    + destruct (is_train_begin c || is_epoch_end c); [done|].
      by rewrite count_snoc.
Qed.

Lemma counters_count_calls_witness :
  ∃ m, monitor_after 2 10 5
         [OnTrainBatchEnd (float_of_int 1); OnTrainEpochEnd (float_of_int 2);
          OnTrainBegin; OnValBatchEnd (float_of_int 3);
          OnTrainBatchEnd (float_of_int 4); OnTrainBatchEnd (float_of_int 5)]
       = Some m ∧
       train_epochs_passed m = 1 ∧
       train_steps_passed m = 2 ∧
       val_steps_passed m = 1.
Proof.
  apply (counters_count_calls 2 10 5
           [OnTrainBatchEnd (float_of_int 1); OnTrainEpochEnd (float_of_int 2);
            OnTrainBegin; OnValBatchEnd (float_of_int 3);
            OnTrainBatchEnd (float_of_int 4);
            OnTrainBatchEnd (float_of_int 5)]); lia.
Defined.








(** ** StopCallback *)

Lemma check_stop_after (cs : list StopCallback.latch_call) (s : StopCallback) :
  ∃ vs, StopCallback.perform_latch_calls (cs ++ [StopCallback.DoCheckStop]) s
        = (inr (vs ++ [VBool (flag_after cs (stop_flag s))]),
           {| stop_flag := flag_after cs (stop_flag s) |}).
Proof.
  revert s. induction cs as [|c cs IH]; intros [flag].
  - by exists [].
  - cbn [app StopCallback.perform_latch_calls]. unfold Py.bind at 1.
    destruct c; cbn -[flag_after StopCallback.perform_latch_calls app];
      unfold Py.bind at 1;
      match goal with
      | |- context [StopCallback.perform_latch_calls _ ?q] =>
          destruct (IH q) as (vs & ->)
      end; by eexists (_ :: vs).
Qed.

(** X6. The stop flag is a latch. Whatever calls came before, started on
    a new object, [check_stop()] returns a boolean and leaves the flag as
    it is; the boolean is [True] exactly when some [stop()] call has no
    [reset()] call after it. *)
Theorem stop_flag_is_a_latch (cs : list StopCallback.latch_call) :
  ∃ vs b,
    StopCallback.perform_latch_calls (cs ++ [StopCallback.DoCheckStop])
      StopCallback.__init__
    = (inr (vs ++ [VBool b]), {| stop_flag := b |}) ∧
    (b = true ↔
     ∃ pre post, cs = pre ++ StopCallback.DoStop :: post ∧
                 StopCallback.DoReset ∉ post).
Proof.
  assert (Hflag : ∀ cs, flag_after cs false = true ↔
            ∃ pre post, cs = pre ++ StopCallback.DoStop :: post ∧
                        StopCallback.DoReset ∉ post).
  { clear cs. intros cs. induction cs as [|c cs IH] using rev_ind.
    - split; [done|]. intros (pre & post & H & _). by destruct pre.
    - unfold flag_after in *. rewrite foldl_app. cbn [foldl].
      destruct c.
      + split; [|done]. intros _. exists cs, []. split; [done|].
        apply not_elem_of_nil.
      + rewrite IH. split.
        * intros (pre & post & -> & Hpost).
          exists pre, (post ++ [StopCallback.DoCheckStop]).
          split; [by rewrite <- app_assoc|].
          rewrite elem_of_app, list_elem_of_singleton. intros [?|?]; done.
        * intros (pre & post & H & Hpost).
          destruct post as [|x post _] using rev_ind.
          { apply app_inj_tail in H as [_ H]. discriminate. }
          rewrite app_comm_cons, app_assoc in H.
          apply app_inj_tail in H as [-> _].
          exists pre, post. split; [done|].
          intros Hin. apply Hpost. rewrite elem_of_app. by left.
      + split; [done|]. intros (pre & post & H & Hpost).
        destruct post as [|x post _] using rev_ind.
        { apply app_inj_tail in H as [_ H]. discriminate. }
        rewrite app_comm_cons, app_assoc in H.
        apply app_inj_tail in H as [_ <-].
        exfalso. apply Hpost. rewrite elem_of_app, list_elem_of_singleton.
        by right. }
  destruct (check_stop_after cs StopCallback.__init__) as (vs & Hrun).
  exists vs, (flag_after cs false). split; [exact Hrun|apply Hflag].
Qed.

(** ** MetricsMonitor *)

Lemma replay_app (dir : string) (st : nat * option nat)
    (log1 log2 : list writer_call) :
  replay dir st (log1 ++ log2)
  = match replay dir st log1 with
    | Some st' => replay dir st' log2
    | None => None
    end.
Proof.
  revert st. induction log1 as [|c log1 IH]; intros st; [done|].
  simpl. by destruct (replay_call dir st c).
Qed.

Lemma scalars_written_app (log1 log2 : list writer_call) :
  scalars_written (log1 ++ log2)
  = scalars_written log1 ++ scalars_written log2.
Proof. apply omap_app. Qed.

Lemma perform_logger_call_in_step (dir : string)
    (c : MetricsMonitor.logger_call) (p : MetricsProc) :
  in_step dir p →
  ∃ p', MetricsMonitor.perform_logger_call c p = (inr VNone, p') ∧
        in_step dir p' ∧
        scalars_written (writer_calls p')
        = scalars_written (writer_calls p)
          ++ scalars_given [c] ∧
        (tb (monitor p') = None ↔ c = MetricsMonitor.LogClose).
Proof.
  destruct p as [[d t] log]. intros [Hd Hr]. simpl in Hd, Hr. subst d.
  destruct c as [capture val timestamp|], t as [w|];
    eexists; (split; [reflexivity|]); cbn [monitor writer_calls tb log_dir];
    unfold in_step; cbn [monitor writer_calls tb log_dir];
    rewrite ?replay_app, ?Hr, ?scalars_written_app, ?filter_app, ?length_app;
    cbn [replay replay_call scalars_written scalars_given omap list_omap
         filter list_filter MetricsMonitor.is_new length app];
    rewrite ?app_nil_r, ?Nat.add_0_r;
    repeat case_decide; try tauto;
    cbn; rewrite ?Nat.add_0_r, ?Nat.add_1_r; try done.
Qed.

Lemma perform_logger_calls_in_step (dir : string)
    (cs : list MetricsMonitor.logger_call) (p : MetricsProc) :
  in_step dir p →
  ∃ vs p', MetricsMonitor.perform_logger_calls cs p = (inr vs, p') ∧
           in_step dir p' ∧
           scalars_written (writer_calls p')
           = scalars_written (writer_calls p) ++ scalars_given cs ∧
           (tb (monitor p') = None ↔
            match last cs with
            | Some c => c = MetricsMonitor.LogClose
            | None => tb (monitor p) = None
            end).
Proof.
  revert p. induction cs as [|c cs IH]; intros p Hp.
  - eexists _, _. split; [reflexivity|]. split; [done|].
    split; [by rewrite app_nil_r|done].
  - cbn [MetricsMonitor.perform_logger_calls]. unfold Py.bind.
    destruct (perform_logger_call_in_step dir c p Hp)
      as (p1 & -> & Hp1 & Hs1 & Ht1).
    destruct (IH p1 Hp1) as (vs & p2 & -> & Hp2 & Hs2 & Ht2).
    eexists _, _. split; [reflexivity|]. split; [done|]. split.
    + rewrite Hs2, Hs1, <- app_assoc. f_equal.
      unfold scalars_given. by rewrite <- omap_app.
    + rewrite Ht2. destruct cs as [|c' cs]; [exact Ht1|].
      rewrite last_cons_cons.
      destruct (last (c' :: cs)) eqn:E; [done|]. by apply last_None in E.
Qed.

(** X7. A new [MetricsMonitor] driven by any sequence of [add_scalar] and
    [close] calls never raises and hands the writers exactly the scalars
    it was given, verbatim and in call order.  Its calls on the writers
    keep a discipline: every writer is constructed on the monitor's
    [log_dir], one at a time, and every scalar and every [close] goes to
    the writer that is open, so [close] on a closed monitor does nothing.
    At the end a writer is open exactly when the last call was an
    [add_scalar]. *)
Theorem metrics_monitor_forwards
    (dir : string) (cs : list MetricsMonitor.logger_call) :
  ∃ vs p,
    MetricsMonitor.perform_logger_calls cs (MetricsMonitor.start dir)
    = (inr vs, p) ∧
    scalars_written (writer_calls p) = scalars_given cs ∧
    (∃ made, replay dir (0%nat, None) (writer_calls p)
             = Some (made, tb (monitor p))) ∧
    (is_Some (tb (monitor p)) ↔
     ∃ cs' capture val timestamp,
       cs = cs' ++ [MetricsMonitor.LogScalar capture val timestamp]).
Proof.
  destruct (perform_logger_calls_in_step dir cs (MetricsMonitor.start dir))
    as (vs & p & Hrun & [_ Hr] & Hs & Ht); [by split|].
  exists vs, p. split; [exact Hrun|]. split; [exact Hs|].
  split; [by eexists|].
  rewrite <- not_eq_None_Some, Ht.
  destruct cs as [|c cs _] using rev_ind.
  - simpl. split; [done|]. intros (cs' & ? & ? & ? & H). by destruct cs'.
  - rewrite last_snoc. split.
    + intros Hc. destruct c as [capture val timestamp|]; [|done].
      by exists cs, capture, val, timestamp.
    + intros (cs' & capture & val & timestamp & H).
      apply app_inj_tail in H as [_ ->]. done.
Qed.

(** ** DefaultMetricsMonitor, with close *)

Lemma perform_metric_calls_lookup
    (cs : list DefaultMetricsMonitor.metric_call) (s : DefaultMetricsMonitor)
    (capture : string) :
  ∃ s', DefaultMetricsMonitor.perform_metric_calls cs s = (inr tt, s') ∧
        metrics_dict s' !! capture
        = match values_given capture cs with
          | [] => metrics_dict s !! capture
          | x :: xs =>
              Some (default [] (metrics_dict s !! capture) ++ x :: xs)
          end.
Proof.
  revert s. induction cs as [|c cs IH]; intros s.
  - by eexists.
  - cbn [DefaultMetricsMonitor.perform_metric_calls]. unfold Py.bind.
    destruct c as [c x t|].
    + cbn [DefaultMetricsMonitor.perform_metric_call]. rewrite add_scalar_eq.
      match goal with
      | |- context [DefaultMetricsMonitor.perform_metric_calls _ ?q] =>
          destruct (IH q) as (s' & -> & Hs')
      end.
      exists s'. split; [reflexivity|]. rewrite Hs'. cbn [metrics_dict].
      unfold values_given. cbn [omap list_omap].
      destruct (decide (c = capture)) as [->|Hne].
      * rewrite lookup_insert_eq.
        destruct (omap _ cs) as [|y ys]; simpl; [reflexivity|].
        by rewrite <- app_assoc.
      * by rewrite lookup_insert_ne.
    + cbn [DefaultMetricsMonitor.perform_metric_call].
      unfold DefaultMetricsMonitor.close, Py.ret.
      destruct (IH s) as (s' & -> & Hs'). by exists s'.
Qed.

(** X8. [close()] on the default monitor forgets nothing: after any
    sequence of [add_scalar] and [close] calls on a new monitor,
    [get_metric_values(name)] returns every value given under [name], in
    call order, whether or not a [close] came in between or after, and
    raises [KeyError] exactly when no value was given under [name]. *)
Theorem default_monitor_close_keeps_values
    (cs : list DefaultMetricsMonitor.metric_call) (capture : string) :
  ∃ s, DefaultMetricsMonitor.perform_metric_calls cs
         DefaultMetricsMonitor.__init__ = (inr tt, s) ∧
       fst (DefaultMetricsMonitor.get_metric_values capture s)
       = match values_given capture cs with
         | [] => inl KeyError
         | x :: xs => inr (x :: xs)
         end.
Proof.
  destruct (perform_metric_calls_lookup cs DefaultMetricsMonitor.__init__
              capture) as (s & Hrun & Hs).
  exists s. split; [exact Hrun|].
  unfold DefaultMetricsMonitor.get_metric_values, Py.bind, Py.get.
  rewrite Hs. cbn [DefaultMetricsMonitor.__init__ metrics_dict].
  rewrite lookup_empty. by destruct (values_given capture cs).
Qed.

(** ** GlobalMe: the pattern *)

Lemma match_tail_cons (a : ascii) (s : string) :
  match_tail (String a s)
  = if Ascii.eqb a "_" then
      match s with
      | String b (String d _) =>
          if Ascii.eqb b "c" then if is_digit d then Some d else None
          else None
      | _ => None
      end
    else None.
Proof.
  destruct a as [[] [] [] [] [] [] [] []]; try reflexivity.
  destruct s as [|b s]; [reflexivity|].
  destruct b as [[] [] [] [] [] [] [] []]; try reflexivity;
    by destruct s.
Qed.

Lemma match_tail_Some (s : string) (d : ascii) :
  match_tail s = Some d ↔
  is_digit d = true ∧ ∃ post, s = "_c" +:+ String d post.
Proof.
  split.
  - destruct s as [|a s]; [done|]. rewrite match_tail_cons.
    destruct (Ascii.eqb_spec a "_") as [->|_]; [|done].
    destruct s as [|b [|c post]]; try done.
    destruct (Ascii.eqb_spec b "c") as [->|_]; [|done].
    destruct (is_digit c) eqn:Hc; [|done].
    intros [= <-]. split; [done|]. by exists post.
  - intros [Hd [post ->]]. simpl. by rewrite Hd.
Qed.

Lemma string_app_cons (c : ascii) (s t : string) :
  String c s +:+ t = String c (s +:+ t).
Proof. reflexivity. Qed.

Lemma match_here_Some (s g : string) (d : ascii) :
  match_here s = Some (g, d) → ∃ post, occurrence s "" g d post.
Proof.
  revert g. induction s as [|c r IH]; intros g; [done|]. simpl.
  destruct (in_class c) eqn:Hc; [|done].
  destruct (match_here r) as [[g' d']|].
  - intros [= <- <-]. destruct (IH g' eq_refl) as (post & Hr & Hg & Hcl & Hd).
    exists post. simpl in Hr. unfold occurrence. split_and!; [|done| |done].
    + cbn [String.append]. by rewrite Hr.
    + cbn [all_in_class]. by rewrite Hc, Hcl.
  - destruct (match_tail r) as [d'|] eqn:Ht; [|done].
    intros [= <- <-]. apply match_tail_Some in Ht as [Hd [post ->]].
    exists post. unfold occurrence. split_and!; [done|done| |done].
    cbn [all_in_class]. by rewrite Hc.
Qed.

Lemma match_here_complete (g : string) (d : ascii) (post : string) :
  g ≠ "" → all_in_class g = true → is_digit d = true →
  match_here (g +:+ "_c" +:+ String d post) = Some (g, d).
Proof.
  intros Hg Hcl Hd. induction g as [|c g IH]; [done|].
  cbn [all_in_class] in Hcl. apply andb_true_iff in Hcl as [Hc Hcl].
  rewrite string_app_cons. cbn [match_here]. rewrite Hc.
  destruct g as [|c' g'].
  - simpl. by rewrite Hd.
  - by rewrite IH.
Qed.

Lemma search_Some (s g : string) (d : ascii) :
  search s = Some (g, d) → ∃ pre post, occurrence s pre g d post.
Proof.
  revert g d. induction s as [|x r IH]; intros g d; [done|].
  cbn [search]. destruct (match_here (String x r)) as [[g' d']|] eqn:Hm.
  - intros [= <- <-]. apply match_here_Some in Hm as [post Hocc].
    by exists "", post.
  - intros Hs. destruct (IH g d Hs) as (pre & post & Hr & Hg & Hcl & Hd).
    exists (String x pre), post. unfold occurrence.
    split_and!; try done. by rewrite string_app_cons, Hr.
Qed.

(** X9. What [pattern.search] returns is in the path: the first group is
    a non-empty run of [-] and digits, followed by [_c] and the one digit
    of the second group; the run is not cut on the left (the character
    before it, if there is one, is outside the class), and no earlier
    position of the path has a match. *)
Theorem search_returns_an_occurrence (s g : string) (d : ascii) :
  search s = Some (g, d) →
  ∃ pre post,
    occurrence s pre g d post ∧
    (∀ pre' c, pre = pre' +:+ String c "" → in_class c = false) ∧
    (∀ pre1 pre2, pre = pre1 +:+ pre2 → pre2 ≠ "" →
                  match_here (pre2 +:+ g +:+ "_c" +:+ String d post) = None).
Proof.
  revert g d. induction s as [|x r IH]; intros g d.
  - simpl. done.
  - cbn [search]. destruct (match_here (String x r)) as [[g' d']|] eqn:Hm.
    + intros [= <- <-]. apply match_here_Some in Hm as [post Hocc].
      exists "", post. split; [done|]. split.
      * intros pre' c H. by destruct pre'.
      * intros pre1 pre2 H Hne. destruct pre1, pre2; done.
    + intros Hs. destruct (IH g d Hs) as (pre & post & Hocc & Hlast & Hleft).
      destruct Hocc as (Hr & Hg & Hcl & Hd).
      exists (String x pre), post. split; [|split].
      * unfold occurrence. split_and!; try done.
        cbn [String.append]. by rewrite Hr.
      * intros pre' c H. destruct pre' as [|y pre'].
        -- simpl in H. injection H as -> ->.
           destruct (in_class c) eqn:Hc; [|done].
           change (r = g +:+ "_c" +:+ String d post) in Hr. subst r.
           cbn [match_here] in Hm.
           by rewrite Hc, match_here_complete in Hm.
        -- simpl in H. injection H as _ ->. by eapply Hlast.
      * intros pre1 pre2 H Hne. destruct pre1 as [|y pre1].
        -- change (String x pre = pre2) in H. subst pre2.
           rewrite string_app_cons, <- Hr. exact Hm.
        -- change (String x pre = String y (pre1 +:+ pre2)) in H.
           injection H as _ ->. by apply (Hleft pre1 pre2).
Qed.

Lemma search_returns_an_occurrence_witness :
  ∃ pre post,
    occurrence "query/0012_c3s1_000151_00.jpg" pre "0012" "3" post ∧
    (∀ pre' c, pre = pre' +:+ String c "" → in_class c = false) ∧
    (∀ pre1 pre2, pre = pre1 +:+ pre2 → pre2 ≠ "" →
                  match_here (pre2 +:+ "0012" +:+ "_c" +:+ String "3" post)
                  = None).
Proof.
  apply (search_returns_an_occurrence "query/0012_c3s1_000151_00.jpg").
  vm_compute. reflexivity.
Defined.

(** X10. [pattern.search] finds a match exactly when the path holds one:
    it returns [None] if and only if no position of the path starts a
    non-empty run of [-] and digits followed by [_c] and a digit. *)
Theorem search_finds_every_occurrence (s : string) :
  search s = None ↔ ¬ ∃ pre g d post, occurrence s pre g d post.
Proof.
  split.
  - intros Hs (pre & g & d & post & -> & Hg & Hcl & Hd).
    induction pre as [|x pre IH].
    + change ("" +:+ g +:+ "_c" +:+ String d post)
        with (g +:+ "_c" +:+ String d post) in Hs.
      destruct g as [|c g]; [done|].
      rewrite string_app_cons in Hs. cbn [search] in Hs.
      rewrite <- string_app_cons in Hs.
      by rewrite match_here_complete in Hs.
    + apply IH. rewrite string_app_cons in Hs. cbn [search] in Hs.
      by destruct (match_here _).
  - intros Hno. destruct (search s) as [[g d]|] eqn:Hs; [|done].
    exfalso. apply Hno.
    destruct (search_Some s g d Hs) as (pre & post & Hocc).
    by exists pre, g, d, post.
Qed.

(** ** GlobalMe: int and parse *)

Lemma is_digit_not_dash (c : ascii) :
  is_digit c = true → Ascii.eqb c "-" = false.
Proof.
  intros Hc. destruct (Ascii.eqb_spec c "-") as [->|]; [|done].
  by vm_compute in Hc.
Qed.

Lemma in_class_digit (c : ascii) :
  in_class c = true → Ascii.eqb c "-" = false → is_digit c = true.
Proof. unfold in_class. intros H E. by rewrite E in H. Qed.

Lemma digits_value_None (acc : Z) (s : string) :
  all_in_class s = true →
  (digits_value acc s = None ↔ has_dash s = true).
Proof.
  revert acc. induction s as [|c r IH]; intros acc; [done|].
  cbn [all_in_class has_dash digits_value].
  intros [Hc Hr]%andb_true_iff.
  destruct (Ascii.eqb c "-") eqn:Hdash.
  - apply Ascii.eqb_eq in Hdash as ->. by split.
  - rewrite (in_class_digit c Hc Hdash). simpl. by apply IH.
Qed.

Lemma int_of_str_digit (d : ascii) :
  is_digit d = true →
  int_of_str (String d "") = inr (Z.of_N (N_of_ascii d) - 48) ∧
  0 ≤ Z.of_N (N_of_ascii d) - 48 ≤ 9.
Proof.
  intros Hd. unfold int_of_str. rewrite (is_digit_not_dash d Hd).
  cbn [digits_value]. rewrite Hd. split; [done|].
  unfold is_digit in Hd. apply andb_true_iff in Hd as [H1 H2].
  apply N.leb_le in H1, H2. lia.
Qed.

(** On a group of the pattern, [int] fails exactly on a lone [-] and on a
    [-] that is not the first character. *)
Lemma int_of_str_group (g : string) :
  g ≠ "" → all_in_class g = true →
  (int_of_str g = inl ValueError ↔
   g = "-" ∨ ∃ c r, g = String c r ∧ has_dash r = true) ∧
  (∀ e, int_of_str g = inl e → e = ValueError).
Proof.
  intros Hg Hcl. split.
  - destruct g as [|c r]; [done|].
    cbn [all_in_class] in Hcl. apply andb_true_iff in Hcl as [Hc Hr].
    unfold int_of_str. destruct (Ascii.eqb c "-") eqn:Hdash.
    + apply Ascii.eqb_eq in Hdash as ->. destruct r as [|c' r'].
      * split; [by left|done].
      * pose proof (digits_value_None 0 (String c' r') Hr) as HN.
        destruct (digits_value 0 (String c' r')) as [z|].
        -- split; [done|]. intros [?|(c & r & [= <- <-] & Hd)]; [done|].
           by apply HN in Hd.
        -- split; [|done]. intros _. right. eexists _, _. split; [done|].
           by apply HN.
    + assert (Hcl' : all_in_class (String c r) = true)
        by (cbn [all_in_class]; by rewrite Hc, Hr).
      pose proof (digits_value_None 0 (String c r) Hcl') as HN.
      cbn [has_dash] in HN. rewrite Hdash in HN. cbn [orb] in HN.
      destruct (digits_value 0 (String c r)) as [z|].
      * split; [done|]. intros [[= -> ->]|(c0 & r0 & [= <- <-] & Hd)].
        -- done.
        -- by apply (proj2 HN) in Hd.
      * split; [|done]. intros _. right. eexists _, _. split; [done|].
        by apply (proj1 HN).
  - intros e. unfold int_of_str.
    destruct g as [|c r]; [done|].
    destruct (Ascii.eqb c "-"); repeat case_match; by intros [= <-].
Qed.

(** X11. The camera id that parsing gives is one decimal digit, the one
    the pattern's second group holds: it lies between 0 and 9, and a
    camera number of several digits in the name is cut to its first
    digit. *)
Theorem camid_is_one_digit (img_path : string) (pid camid : Z) :
  parse img_path = inr (pid, camid) →
  0 ≤ camid ≤ 9 ∧
  ∃ g d, search img_path = Some (g, d) ∧
         camid = Z.of_N (N_of_ascii d) - 48.
Proof.
  unfold parse. destruct (search img_path) as [[g d]|] eqn:Hs; [|done].
  destruct (search_Some img_path g d Hs) as (pre & post & _ & _ & _ & Hd).
  destruct (int_of_str_digit d Hd) as [-> Hrange].
  destruct (int_of_str g) as [e|pid']; [done|].
  intros [= <- <-]. split; [done|]. by exists g, d.
Qed.

Lemma camid_is_one_digit_witness :
  0 ≤ 1 ≤ 9 ∧
  ∃ g d, search "query/0001_c12s1_000151_00.jpg" = Some (g, d) ∧
         1 = Z.of_N (N_of_ascii d) - 48.
Proof.
  apply (camid_is_one_digit "query/0001_c12s1_000151_00.jpg" 1 1).
  vm_compute. reflexivity.
Defined.

Lemma parse_error_kinds (img_path : string) (e : error) :
  parse img_path = inl e → e = AttributeError ∨ e = ValueError.
Proof.
  unfold parse. destruct (search img_path) as [[g d]|] eqn:Hs.
  - destruct (search_Some img_path g d Hs) as (pre & post & _ & Hg & Hcl & Hd).
    destruct (int_of_str_digit d Hd) as [-> _].
    destruct (int_of_str_group g Hg Hcl) as [_ Honly].
    destruct (int_of_str g) as [e'|pid] eqn:Hint; [|done].
    intros [= <-]. right. by apply Honly.
  - intros [= <-]. by left.
Qed.

(** X12. Parsing a path raises nothing but [AttributeError] and
    [ValueError]: [AttributeError] exactly when the pattern has no match in
    the path, [ValueError] exactly when the identity group of the match is
    a lone [-] or has a [-] after its first character. *)
Theorem parse_errors (img_path : string) :
  (parse img_path = inl AttributeError ↔ search img_path = None) ∧
  (parse img_path = inl ValueError ↔
   ∃ g d, search img_path = Some (g, d) ∧
          (g = "-" ∨ ∃ c r, g = String c r ∧ has_dash r = true)) ∧
  (∀ e, parse img_path = inl e → e = AttributeError ∨ e = ValueError).
Proof.
  unfold parse. destruct (search img_path) as [[g d]|] eqn:Hs.
  - destruct (search_Some img_path g d Hs) as (pre & post & _ & Hg & Hcl & Hd).
    destruct (int_of_str_digit d Hd) as [-> _].
    destruct (int_of_str_group g Hg Hcl) as [Hiff Honly].
    destruct (int_of_str g) as [e|pid] eqn:Hint.
    + pose proof (Honly e eq_refl) as ->. split_and!.
      * split; done.
      * split; [|done]. intros _. exists g, d. split; [done|].
        by apply Hiff.
      * intros e [= <-]. by right.
    + split_and!; [split; done| |done].
      split; [done|]. intros (g' & d' & [= <- <-] & H).
      by apply Hiff in H.
  - split_and!.
    + done.
    + split; [done|]. by intros (g & d & ? & _).
    + intros e [= <-]. by left.
Qed.


(** ** GlobalMe: the scan, further *)

Section ProcessDirFurther.

Variable set_iter : gset Z → list Z.
Hypothesis set_iter_perm : ∀ s, set_iter s ≡ₚ elements s.

Lemma process_dir_raw (img_paths : list string) :
  Forall parses img_paths →
  process_dir set_iter img_paths false = inr (raw_samples img_paths).
Proof.
  intros Hall. unfold process_dir.
  rewrite (collect_pids_ok img_paths ∅ Hall). by rewrite build_data_raw.
Qed.

Lemma process_dir_relabelled (img_paths : list string) :
  Forall parses img_paths →
  process_dir set_iter img_paths true
  = inr (relabelled
           (make_pid2label set_iter
              (list_to_set (pid_of <$> raw_samples img_paths)))
         <$> raw_samples img_paths).
Proof.
  intros Hall. unfold process_dir.
  rewrite (collect_pids_ok img_paths ∅ Hall), (left_id_L ∅ (∪)).
  rewrite build_data_relabelled; [done|done|].
  intros s Hs.
  destruct (make_pid2label_label set_iter set_iter_perm
              (list_to_set (pid_of <$> raw_samples img_paths)) (pid_of s))
    as (label & Hl & _).
  - apply elem_of_list_to_set, list_elem_of_fmap. by exists s.
  - by exists label.
Qed.

(** X13. [process_dir] returns a list exactly when every path parses, for
    either value of the flag; in particular the lookup
    [pid2label[pid]] never raises [KeyError], and the only exceptions the
    scan can raise are [AttributeError] and [ValueError]. *)
Theorem process_dir_returns_iff_all_parse
    (img_paths : list string) (relabel : bool) :
  ((∃ data, process_dir set_iter img_paths relabel = inr data) ↔
   Forall parses img_paths) ∧
  (∀ e, process_dir set_iter img_paths relabel = inl e →
        e = AttributeError ∨ e = ValueError).
Proof.
  destruct (first_failure img_paths)
    as [Hall|(pre & p & post & e & -> & Hpre & Hp)].
  - assert (∃ data, process_dir set_iter img_paths relabel = inr data)
      as [data Hdata].
    { destruct relabel; eexists;
        [by apply process_dir_relabelled|by apply process_dir_raw]. }
    split; [split; [done|by exists data]|]. intros e. by rewrite Hdata.
  - rewrite (process_dir_error set_iter pre post p e relabel Hpre Hp).
    split.
    + split; [by intros [data ?]|]. intros Hall. exfalso.
      apply Forall_app in Hall as [_ Hall].
      apply Forall_cons in Hall as [[r Hr] _]. congruence.
    + intros e' [= <-]. by apply (parse_error_kinds p).
Qed.

(** X14. When the scan raises, the exception is the one of the first
    path that does not parse, whatever comes after it and whatever the
    flag: [process_dir] raises [e] exactly when the paths split into a
    prefix that parses and a next path on which parsing raises [e]. *)
Theorem first_failure_decides
    (img_paths : list string) (relabel : bool) (e : error) :
  process_dir set_iter img_paths relabel = inl e ↔
  ∃ pre p post, img_paths = pre ++ p :: post ∧ Forall parses pre ∧
                parse p = inl e.
Proof.
  split.
  - intros Hrun. destruct (first_failure img_paths)
      as [Hall|(pre & p & post & e' & -> & Hpre & Hp)].
    + destruct relabel;
        [rewrite process_dir_relabelled in Hrun by done
        |rewrite process_dir_raw in Hrun by done]; done.
    + rewrite (process_dir_error set_iter pre post p e' relabel Hpre Hp)
        in Hrun.
      injection Hrun as <-. by exists pre, p, post.
  - intros (pre & p & post & -> & Hpre & Hp). by apply process_dir_error.
Qed.

Lemma make_pid2label_inj (s : gset Z) (pid1 pid2 label : Z) :
  pid1 ∈ s → pid2 ∈ s →
  make_pid2label set_iter s !! pid1 = Some label →
  make_pid2label set_iter s !! pid2 = Some label →
  pid1 = pid2.
Proof.
  intros H1 H2.
  apply (set_iter_elem_of set_iter set_iter_perm), list_elem_of_lookup
    in H1 as [i1 Hi1], H2 as [i2 Hi2].
  unfold make_pid2label, enumerate.
  rewrite (enumerate_insert_in _ _ _ _ i1),
    (enumerate_insert_in _ _ _ _ i2)
    by (done || by apply set_iter_NoDup).
  intros [= <-] [= Hi]. assert (i1 = i2) as -> by lia. congruence.
Qed.

(** X15. Relabelling keeps the identities apart: when every path parses,
    the relabelled scan returns one sample for each sample of the scan
    without relabelling, in the same order, and two of its samples carry
    the same label exactly when the two names carry the same identity. *)
Theorem relabel_keeps_identities (img_paths : list string) :
  Forall parses img_paths →
  ∃ data,
    process_dir set_iter img_paths true = inr data ∧
    length data = length (raw_samples img_paths) ∧
    ∀ i j s s' r r',
      data !! i = Some s → data !! j = Some s' →
      raw_samples img_paths !! i = Some r →
      raw_samples img_paths !! j = Some r' →
      (pid_of s = pid_of s' ↔ pid_of r = pid_of r').
Proof.
  intros Hall. rewrite (process_dir_relabelled img_paths Hall).
  set (pids := list_to_set (pid_of <$> raw_samples img_paths) : gset Z).
  set (d := make_pid2label set_iter pids).
  eexists. split; [reflexivity|]. split; [by rewrite length_fmap|].
  intros i j s s' r r' Hs Hs' Hr Hr'.
  rewrite list_lookup_fmap, Hr in Hs. rewrite list_lookup_fmap, Hr' in Hs'.
  injection Hs as <-. injection Hs' as <-.
  assert (Hin : ∀ k x, raw_samples img_paths !! k = Some x → pid_of x ∈ pids).
  { intros k x Hx. apply elem_of_list_to_set, list_elem_of_fmap.
    exists x. split; [done|]. by eapply list_elem_of_lookup_2. }
  destruct (make_pid2label_label set_iter set_iter_perm pids (pid_of r))
    as (l & Hl & _); [by eapply Hin|].
  destruct (make_pid2label_label set_iter set_iter_perm pids (pid_of r'))
    as (l' & Hl' & _); [by eapply Hin|].
  fold d in Hl, Hl'.
  change (pid_of (relabelled d r)) with (default 0 (d !! pid_of r)).
  change (pid_of (relabelled d r')) with (default 0 (d !! pid_of r')).
  rewrite Hl, Hl'. simpl.
  split.
  - intros <-. eapply make_pid2label_inj; [by eapply Hin|by eapply Hin|..];
      done.
  - intros Heq. rewrite Heq in Hl. congruence.
Qed.

End ProcessDirFurther.

(** ** GlobalMe.__init__ *)

Lemma build_data_false_inv (d : gmap Z Z) (img_paths : list string)
    (acc data : list sample) :
  build_data d false img_paths acc = inr data →
  data = acc ++ raw_samples img_paths.
Proof.
  revert acc. induction img_paths as [|p ps IH]; intros acc.
  - simpl. intros [= <-]. by rewrite app_nil_r.
  - rewrite raw_samples_cons. cbn [build_data]. unfold raw_sample.
    destruct (parse p) as [e|[pid camid]]; [done|].
    destruct (decide (pid = -1)); [apply IH|].
    intros H. apply IH in H. by rewrite H, <- app_assoc.
Qed.

Lemma build_data_camids (d : gmap Z Z) (relabel : bool)
    (img_paths : list string) (acc data : list sample) :
  build_data d relabel img_paths acc = inr data →
  camid_of <$> data
  = (camid_of <$> acc) ++ (camid_of <$> raw_samples img_paths).
Proof.
  revert acc. induction img_paths as [|p ps IH]; intros acc.
  - simpl. intros [= <-]. by rewrite app_nil_r.
  - rewrite raw_samples_cons. cbn [build_data]. unfold raw_sample.
    destruct (parse p) as [e|[pid camid]]; [done|].
    destruct (decide (pid = -1)); [apply IH|].
    destruct relabel; [destruct (d !! pid) as [label|]; [|done]|];
      intros H; apply IH in H; rewrite H, fmap_app, <- app_assoc; done.
Qed.

(** X16. What [__init__] hands on when it succeeds: the query list and
    the gallery list are the samples of their folders with the identities
    as parsed, the gallery followed by the samples of the extra folder when
    [market1501_500k] is set; the train list keeps the paths and camera ids
    of its folder in order (its identities are labels).  When the flag is
    not set the extra folder is not scanned at all, so its content cannot
    make [__init__] fail. *)
Theorem init_splits
    (set_iter : gset Z → list Z)
    (train_paths query_paths gallery_paths extra_paths : list string)
    (market1501_500k : bool) (train query gallery : list sample) :
  GlobalMe.__init__ set_iter train_paths query_paths gallery_paths
    extra_paths market1501_500k = inr (train, query, gallery) →
  img_path_of <$> train = img_path_of <$> raw_samples train_paths ∧
  camid_of <$> train = camid_of <$> raw_samples train_paths ∧
  query = raw_samples query_paths ∧
  gallery = raw_samples (gallery_paths
                         ++ if market1501_500k then extra_paths else []) ∧
  ∀ other_paths,
    GlobalMe.__init__ set_iter train_paths query_paths gallery_paths
      other_paths false
    = GlobalMe.__init__ set_iter train_paths query_paths gallery_paths
        [] false.
Proof.
  assert (Hraw : ∀ paths data,
             process_dir set_iter paths false = inr data →
             data = raw_samples paths).
  { intros paths data. unfold process_dir.
    destruct (collect_pids paths ∅) as [e|pids]; [done|].
    intros H. by apply build_data_false_inv in H. }
  unfold GlobalMe.__init__.
  destruct (process_dir set_iter train_paths true) as [e|train'] eqn:Ht;
    [done|].
  destruct (process_dir set_iter query_paths false) as [e|query'] eqn:Hq;
    [done|].
  destruct (process_dir set_iter gallery_paths false) as [e|gallery'] eqn:Hg;
    [done|].
  apply Hraw in Hq, Hg. subst query' gallery'.
  assert (Htrain : img_path_of <$> train' = img_path_of <$> raw_samples train_paths
                   ∧ camid_of <$> train' = camid_of <$> raw_samples train_paths).
  { unfold process_dir in Ht.
    destruct (collect_pids train_paths ∅) as [e|pids]; [done|].
    split; [by apply build_data_paths in Ht|by apply build_data_camids in Ht]. }
  destruct Htrain as [Hp Hc].
  destruct market1501_500k.
  - destruct (process_dir set_iter extra_paths false) as [e|extra] eqn:Hx;
      [done|].
    apply Hraw in Hx. subst extra. intros [= <- <- <-].
    split_and!; try done. unfold raw_samples. by rewrite omap_app.
  - intros [= <- <- <-]. split_and!; try done. by rewrite app_nil_r.
Qed.

Lemma init_splits_witness :
  ∃ train,
    img_path_of <$> train
    = img_path_of <$> raw_samples ["bounding_box_train/0007_c1s1_000151_00.jpg"] ∧
    camid_of <$> train
    = camid_of <$> raw_samples ["bounding_box_train/0007_c1s1_000151_00.jpg"] ∧
    [("query/0007_c2s1_000301_00.jpg", 7, 2)]
    = raw_samples ["query/0007_c2s1_000301_00.jpg"] ∧
    [("bounding_box_test/0007_c3s1_000401_00.jpg", 7, 3);
     ("images/0009_c1s1_000001_00.jpg", 9, 1)]
    = raw_samples (["bounding_box_test/0007_c3s1_000401_00.jpg";
                    "bounding_box_test/-1_c3s1_000451_00.jpg"]
                   ++ if true then ["images/0009_c1s1_000001_00.jpg"] else []) ∧
    ∀ other_paths,
      GlobalMe.__init__ elements
        ["bounding_box_train/0007_c1s1_000151_00.jpg"]
        ["query/0007_c2s1_000301_00.jpg"]
        ["bounding_box_test/0007_c3s1_000401_00.jpg";
         "bounding_box_test/-1_c3s1_000451_00.jpg"]
        other_paths false
      = GlobalMe.__init__ elements
          ["bounding_box_train/0007_c1s1_000151_00.jpg"]
          ["query/0007_c2s1_000301_00.jpg"]
          ["bounding_box_test/0007_c3s1_000401_00.jpg";
           "bounding_box_test/-1_c3s1_000451_00.jpg"]
          [] false.
Proof.
  eexists.
  apply (init_splits elements
           ["bounding_box_train/0007_c1s1_000151_00.jpg"]
           ["query/0007_c2s1_000301_00.jpg"]
           ["bounding_box_test/0007_c3s1_000401_00.jpg";
            "bounding_box_test/-1_c3s1_000451_00.jpg"]
           ["images/0009_c1s1_000001_00.jpg"] true).
  vm_compute. reflexivity.
Defined.

Lemma process_dir_returns_iff_all_parse_witness :
  ((∃ data, process_dir elements
              ["query/0007_c2s1_000301_00.jpg"; "query/-1_c2s1_000351_00.jpg"]
              true = inr data) ↔
   Forall parses ["query/0007_c2s1_000301_00.jpg";
                  "query/-1_c2s1_000351_00.jpg"]) ∧
  (∀ e, process_dir elements
          ["query/0007_c2s1_000301_00.jpg"; "query/-1_c2s1_000351_00.jpg"]
          true = inl e →
        e = AttributeError ∨ e = ValueError).
Proof.
  apply (process_dir_returns_iff_all_parse elements
           (λ s, reflexivity (elements s))).
Defined.

Lemma first_failure_decides_witness :
  process_dir elements
    ["query/0007_c2s1_000301_00.jpg"; "query/7-7_c2s1_000351_00.jpg";
     "query/thumbs.jpg"] false = inl ValueError ↔
  ∃ pre p post,
    ["query/0007_c2s1_000301_00.jpg"; "query/7-7_c2s1_000351_00.jpg";
     "query/thumbs.jpg"] = pre ++ p :: post ∧
    Forall parses pre ∧ parse p = inl ValueError.
Proof.
  apply (first_failure_decides elements (λ s, reflexivity (elements s))).
Defined.

Lemma relabel_keeps_identities_witness :
  ∃ data,
    process_dir elements
      ["train/0007_c1s1_000151_00.jpg"; "train/0003_c2s1_000301_00.jpg";
       "train/0007_c3s2_000151_00.jpg"] true = inr data ∧
    length data
    = length (raw_samples
                ["train/0007_c1s1_000151_00.jpg";
                 "train/0003_c2s1_000301_00.jpg";
                 "train/0007_c3s2_000151_00.jpg"]) ∧
    ∀ i j s s' r r',
      data !! i = Some s → data !! j = Some s' →
      raw_samples ["train/0007_c1s1_000151_00.jpg";
                   "train/0003_c2s1_000301_00.jpg";
                   "train/0007_c3s2_000151_00.jpg"] !! i = Some r →
      raw_samples ["train/0007_c1s1_000151_00.jpg";
                   "train/0003_c2s1_000301_00.jpg";
                   "train/0007_c3s2_000151_00.jpg"] !! j = Some r' →
      (pid_of s = pid_of s' ↔ pid_of r = pid_of r').
Proof.
  apply (relabel_keeps_identities elements (λ s, reflexivity (elements s))).
  repeat constructor; eexists; vm_compute; reflexivity.
Defined.
